(** * Multi-cluster app dispatcher: node ledger and quota admission

    A shallow embedding of

    - [pkg/controller/clusterstate/api/node_info.go] (package [api]): the
      per-node ledger [NodeInfo] with its Idle / Used / Releasing pools;
    - the quota manager of package [quotamanager] ([getQuotaDesignation],
      the demand conversions, [buildRequest], [Fits], [Release]).

    Go pointers to mutable structs become explicit state passing: a method
    that mutates its receiver returns the receiver's new value.  [klog]
    warnings are returned as a list of lines; verbosity-gated [klog.V(n)]
    lines are left out. *)

From Stdlib Require Import ZArith Lia List Bool Ascii.
From Stdlib Require Import Floats.SpecFloat.
From stdpp Require Import base option list strings gmap fin_maps.

Local Open Scope Z_scope.

(** ** Package [api]: resources, tasks, nodes *)

Module Api.

(** Modelled from the spec: the resource vector of resource_info.go, which
    is not among the sources.  The three dimensions are the ones the quota
    manager reads ([MilliCPU], [Memory], [GPU]).  The ledger adds and
    subtracts the amounts themselves (millicores, bytes, devices): an
    amount is an integer here, and the rounding of the [float64] fields of
    the Go struct is not part of the model. *)
Record Resource := mkResource { MilliCPU : Z; Memory : Z; GPU : Z }.

(** Modelled from the spec: [Empty()], the all-zero vector. *)
Definition EmptyResource : Resource := mkResource 0 0 0.

(** Modelled from the spec: [Add(other)], componentwise sum, always
    succeeds. *)
Definition Add (r rr : Resource) : Resource :=
  mkResource (MilliCPU r + MilliCPU rr) (Memory r + Memory rr) (GPU r + GPU rr).


(** The spec leaves open what [Sub] stores in a dimension that would go
    negative: (a) zero, or (b) the raw difference.  Both are modelled. *)
Inductive UnderflowPolicy := ClampToZero | RawDifference.

(** One dimension of [Sub]. *)
Definition sub_dim (p : UnderflowPolicy) (a b : Z) : Z :=
  match p with
  | ClampToZero => Z.max 0 (a - b)
  | RawDifference => a - b
  end.

(** Would some dimension of [r - rr] go negative? *)
Definition underflows (r rr : Resource) : bool :=
  (MilliCPU r - MilliCPU rr <? 0) || (Memory r - Memory rr <? 0)
  || (GPU r - GPU rr <? 0).

(** Modelled from the spec: [Sub(other)], the componentwise difference
    together with the underflow signal raised when some dimension would go
    negative; the result is applied in either case. *)
Definition Sub (p : UnderflowPolicy) (r rr : Resource) : Resource * option string :=
  (mkResource (sub_dim p (MilliCPU r) (MilliCPU rr))
              (sub_dim p (Memory r) (Memory rr))
              (sub_dim p (GPU r) (GPU rr)),
   if underflows r rr then Some "resource subtraction underflow" else None).

(** Modelled from the spec: the task status enumeration; only the
    releasing / non-releasing distinction matters to the ledger. *)
Module TaskStatus.

Inductive t := Bound | Running | Releasing.

Definition eqb (a b : t) : bool :=
  match a, b with
  | Bound, Bound | Running, Running | Releasing, Releasing => true
  | _, _ => false
  end.

End TaskStatus.

Record Pod := mkPod { pod_Namespace : string; pod_Name : string }.

Definition TaskID := string.

(** Modelled from the spec: [PodKey], the key formed from a pod's
    namespace and name. *)
Definition PodKey (pod : Pod) : TaskID :=
  pod_Namespace pod +:+ "/" +:+ pod_Name pod.

Record TaskInfo := mkTaskInfo {
  task_Namespace : string;
  task_Name : string;
  task_Pod : Pod;
  Resreq : Resource;
  Status : TaskStatus.t
}.

(** Modelled from the spec: [TaskInfo.Clone], a private copy.  Values are
    immutable here, so the copy is the value itself. *)
Definition Clone (ti : TaskInfo) : TaskInfo := ti.

Record Taint := mkTaint { taint_Key : string; taint_Value : string; taint_Effect : string }.

(** The fields of [v1.Node] the ledger reads.  A declared resource list is
    given by the amounts [NewResource] derives from it. *)
Record v1Node := mkNode {
  node_Name : string;
  node_Labels : gmap string string;
  node_Allocatable : Resource;
  node_Capacity : Resource;
  node_Unschedulable : bool;
  node_Taints : list Taint
}.

(** Modelled from the spec: [NewResource], the vector derived from a
    capacity / allocatable declaration. *)
Definition NewResource (rl : Resource) : Resource := rl.

Definition NewStringsMap (m : gmap string string) : gmap string string := m.
Definition NewTaints (ts : list Taint) : list Taint := ts.

(** [type NodeInfo struct]. *)
Record NodeInfo := mkNodeInfo {
  Name : string;
  Node : option v1Node;
  Releasing : Resource;
  Idle : Resource;
  Used : Resource;
  Allocatable : Resource;
  Capability : Resource;
  Labels : gmap string string;
  Unschedulable : bool;
  Taints : list Taint;
  Tasks : gmap TaskID TaskInfo
}.

Definition set_pools (ni : NodeInfo) (releasing idle used : Resource) : NodeInfo :=
  mkNodeInfo (Name ni) (Node ni) releasing idle used (Allocatable ni)
             (Capability ni) (Labels ni) (Unschedulable ni) (Taints ni) (Tasks ni).

Definition set_tasks (ni : NodeInfo) (tasks : gmap TaskID TaskInfo) : NodeInfo :=
  mkNodeInfo (Name ni) (Node ni) (Releasing ni) (Idle ni) (Used ni) (Allocatable ni)
             (Capability ni) (Labels ni) (Unschedulable ni) (Taints ni) tasks.

(** [func NewNodeInfo(node *v1.Node) *NodeInfo]. *)
Definition NewNodeInfo (node : option v1Node) : NodeInfo :=
  match node with
  | None =>
      mkNodeInfo "" None EmptyResource EmptyResource EmptyResource
                 EmptyResource EmptyResource ∅ false [] ∅
  | Some n =>
      mkNodeInfo (node_Name n) (Some n)
                 EmptyResource (NewResource (node_Allocatable n)) EmptyResource
                 (NewResource (node_Allocatable n)) (NewResource (node_Capacity n))
                 (node_Labels n) (node_Unschedulable n) (node_Taints n) ∅
  end.

(** A [klog.Warningf] guarded by [if err != nil]. *)
Definition warn (prefix : string) (err : option string) : list string :=
  match err with
  | Some e => [prefix +:+ e]
  | None => []
  end.

Section Ledger.

Variable policy : UnderflowPolicy.

(** The pools while a loop or a method body runs, with the warnings logged
    so far. *)
Record Pools := mkPools {
  p_Releasing : Resource;
  p_Idle : Resource;
  p_Used : Resource;
  p_log : list string
}.

(** Body of the loop of [SetNode] over the tracked tasks. *)
Definition SetNode_task (acc : Pools) (task : TaskInfo) : Pools :=
  let releasing :=
    if TaskStatus.eqb (Status task) TaskStatus.Releasing
    then Add (p_Releasing acc) (Resreq task) else p_Releasing acc in
  let '(idle, err) := Sub policy (p_Idle acc) (Resreq task) in
  mkPools releasing idle (Add (p_Used acc) (Resreq task))
          (p_log acc ++ warn "[SetNode] Node idle amount subtraction err=" err).

(** [func (ni *NodeInfo) SetNode(node *v1.Node)].  The tasks are visited in
    the order of [map_to_list]. *)
Definition SetNode (ni : NodeInfo) (node : v1Node) : NodeInfo * list string :=
  let pools :=
    match Node ni with
    | None =>
        fold_left SetNode_task ((map_to_list (Tasks ni)).*2)
          (mkPools (Releasing ni) (NewResource (node_Allocatable node)) (Used ni) [])
    | Some _ => mkPools (Releasing ni) (Idle ni) (Used ni) []
    end in
  (mkNodeInfo (node_Name node) (Some node)
              (p_Releasing pools) (p_Idle pools) (p_Used pools)
              (NewResource (node_Allocatable node)) (NewResource (node_Capacity node))
              (NewStringsMap (node_Labels node)) (node_Unschedulable node)
              (NewTaints (node_Taints node)) (Tasks ni),
   p_log pools).

Definition already_on_node (task : TaskInfo) (ni : NodeInfo) : string :=
  "task <" +:+ task_Namespace task +:+ "/" +:+ task_Name task
  +:+ "> already on node <" +:+ Name ni +:+ ">".

Definition not_on_host (task : TaskInfo) (ni : NodeInfo) : string :=
  "failed to find task <" +:+ task_Namespace task +:+ "/" +:+ task_Name task
  +:+ "> on host <" +:+ Name ni +:+ ">".

(** Result of a ledger method: the returned [error], the ledger afterwards
    and the warnings logged. *)
Record Outcome := mkOutcome {
  err : option string;
  post : NodeInfo;
  log : list string
}.

(** [func (ni *NodeInfo) PipelineTask(task *TaskInfo) error]. *)
Definition PipelineTask (ni : NodeInfo) (task : TaskInfo) : Outcome :=
  let key := PodKey (task_Pod task) in
  match Tasks ni !! key with
  | Some _ => mkOutcome (Some (already_on_node task ni)) ni []
  | None =>
      let ti := Clone task in
      let '(ni1, w) :=
        match Node ni with
        | Some _ =>
            let '(releasing, e) := Sub policy (Releasing ni) (Resreq ti) in
            (set_pools ni releasing (Idle ni) (Add (Used ni) (Resreq ti)),
             warn "[PipelineTask] Node release subtraction err=" e)
        | None => (ni, [])
        end in
      mkOutcome None (set_tasks ni1 (<[key := ti]> (Tasks ni1))) w
  end.

(** [func (ni *NodeInfo) AddTask(task *TaskInfo) error]. *)
Definition AddTask (ni : NodeInfo) (task : TaskInfo) : Outcome :=
  let key := PodKey (task_Pod task) in
  match Tasks ni !! key with
  | Some _ => mkOutcome (Some (already_on_node task ni)) ni []
  | None =>
      let ti := Clone task in
      let '(ni1, w) :=
        match Node ni with
        | Some _ =>
            let releasing :=
              if TaskStatus.eqb (Status ti) TaskStatus.Releasing
              then Add (Releasing ni) (Resreq ti) else Releasing ni in
            let '(idle, e) := Sub policy (Idle ni) (Resreq ti) in
            (set_pools ni releasing idle (Add (Used ni) (Resreq ti)),
             warn "[AddTask] Idle resource subtract err=" e)
        | None => (ni, [])
        end in
      mkOutcome None (set_tasks ni1 (<[key := ti]> (Tasks ni1))) w
  end.

(** [func (ni *NodeInfo) RemoveTask(ti *TaskInfo) error]. *)
Definition RemoveTask (ni : NodeInfo) (ti : TaskInfo) : Outcome :=
  let key := PodKey (task_Pod ti) in
  match Tasks ni !! key with
  | None => mkOutcome (Some (not_on_host ti ni)) ni []
  | Some task =>
      let '(ni1, w) :=
        match Node ni with
        | Some _ =>
            let '(releasing, w1) :=
              if TaskStatus.eqb (Status task) TaskStatus.Releasing
              then let '(r, e) := Sub policy (Releasing ni) (Resreq task) in
                   (r, warn "[RemoveTask] Node release subtraction err=" e)
              else (Releasing ni, []) in
            let idle := Add (Idle ni) (Resreq task) in
            let '(used, e) := Sub policy (Used ni) (Resreq task) in
            (set_pools ni releasing idle used,
             w1 ++ warn "[RemoveTask] Node usage subtraction err=" e)
        | None => (ni, [])
        end in
      mkOutcome None (set_tasks ni1 (delete key (Tasks ni1))) w
  end.

(** [func (ni *NodeInfo) UpdateTask(ti *TaskInfo) error]. *)
Definition UpdateTask (ni : NodeInfo) (ti : TaskInfo) : Outcome :=
  let r := RemoveTask ni ti in
  match err r with
  | Some e => r
  | None =>
      let a := AddTask (post r) ti in
      mkOutcome (err a) (post a) (log r ++ log a)
  end.

(** [func (ni *NodeInfo) Clone() *NodeInfo]: a fresh ledger for the same
    node, every tracked task replayed through [AddTask]. *)
Definition CloneNodeInfo (ni : NodeInfo) : NodeInfo :=
  fold_left (fun res p => post (AddTask res p)) ((map_to_list (Tasks ni)).*2)
            (NewNodeInfo (Node ni)).

(** A call of one of the mutating methods the conservation law speaks of. *)
Inductive Call :=
| CallAddTask (task : TaskInfo)
| CallRemoveTask (task : TaskInfo)
| CallUpdateTask (task : TaskInfo)
| CallSetNode (node : v1Node).

Definition call (ni : NodeInfo) (c : Call) : NodeInfo * list string :=
  match c with
  | CallAddTask t => let o := AddTask ni t in (post o, log o)
  | CallRemoveTask t => let o := RemoveTask ni t in (post o, log o)
  | CallUpdateTask t => let o := UpdateTask ni t in (post o, log o)
  | CallSetNode n => SetNode ni n
  end.

(** A sequence of calls, each on the ledger the previous one left. *)
Fixpoint calls (ni : NodeInfo) (cs : list Call) : NodeInfo * list string :=
  match cs with
  | [] => (ni, [])
  | c :: cs' =>
      let '(ni1, w1) := call ni c in
      let '(ni2, w2) := calls ni1 cs' in
      (ni2, w1 ++ w2)
  end.


End Ledger.

End Api.

(** ** Package [quotamanager] *)

Module QuotaManager.

(** *** Constants *)

Definition QuotaManagerForestName : string := "MCAD-CONTROLLER-FOREST".
Definition DefaultQuotaTreeName : string := "UNKNOWNTREENAME".
Definition DefaultQuotaNodeName : string := "UNKNOWNTREENODENAME".

(** Width of [uint] and [int]; the controller is built for 64-bit targets. *)
Definition uint_bits : Z := 64.

(** [MaxInt = int(^uint(0) >> 1)]. *)
Definition MaxInt : Z := Z.shiftr (Z.lnot 0 mod 2 ^ uint_bits) 1.
Definition MinInt : Z := - MaxInt - 1.

(** *** [float64]

    IEEE 754 binary64 values, as [spec_float] with 53 bits of precision. *)

Abbreviation float64 := spec_float.
Definition prec : Z := 53.
Definition emax : Z := 1024.

Definition valid_float64 (f : float64) : bool := valid_binary prec emax f.

(** [float64(i)] for an integer [i]: round to nearest, ties to even. *)
Definition float64_of_int (i : Z) : float64 := binary_normalize prec emax i 0 false.

(** [x > y]; false when either is NaN. *)
Definition float64_gt (x y : float64) : bool := SFltb y x.

(** [x / y]. *)
Definition float64_div (x y : float64) : float64 := SFdiv prec emax x y.

(** The integer part (towards zero) of a finite value. *)
Definition integer_part (f : float64) : option Z :=
  match f with
  | S754_zero _ => Some 0
  | S754_finite s m e => Some (cond_Zopp s (Z.shiftl (Zpos m) e))
  | S754_infinity _ | S754_nan => None
  end.

(** [math.Trunc]: the integer part as a float; zeros, infinities and NaN
    are returned as they are. *)
Definition Trunc (f : float64) : float64 :=
  match f with
  | S754_finite s m e =>
      if e <? 0
      then binary_normalize prec emax (cond_Zopp s (Z.shiftl (Zpos m) e)) 0 s
      else f
  | _ => f
  end.

(** The operands of a format. *)
Inductive fmt_arg :=
| ArgStr (s : string)
| ArgInt (i : Z)
| ArgFloat (f : float64)
| ArgErr (e : option string)
| ArgStrs (l : list string).

(** What the Go library and compiler leave open or what is too large to
    spell out here: the text [fmt] produces for a format and its operands,
    the order in which [reflect] lists the keys of a map, and the result
    of converting to [int] a float that [int] cannot represent
    (implementation-dependent in Go). *)
Class GoRuntime := {
  Sprintf : string -> list fmt_arg -> string;
  MapKeys : gmap string string -> list string;
  int_of_unrepresentable : float64 -> Z
}.

(** *** Data *)

Record QuotaGroup := mkQuotaGroup { GroupContext : string; GroupId : string }.

(** The fields of [arbv1.AppWrapper] the quota manager reads. *)
Record AppWrapper := mkAppWrapper {
  aw_Namespace : string;
  aw_Name : string;
  aw_Labels : gmap string string;
  aw_Priority : Z;
  aw_CanRun : bool
}.

(** [clusterstateapi.Resource] as the quota manager reads it: two
    [float64] fields and an [int64]. *)
Record Resource := mkResource { MilliCPU : float64; Memory : float64; GPU : Z }.

(** Consumer descriptions handed to the backend ([qmbackendutils]). *)
Record JConsumerTreeSpec := mkJConsumerTreeSpec {
  cts_ID : string;
  cts_TreeName : string;
  cts_GroupID : string;
  cts_Request : gmap string Z;
  cts_Priority : Z;
  cts_CType : Z;
  cts_UnPreemptable : bool
}.

Record JConsumerSpec := mkJConsumerSpec { cs_ID : string; cs_Trees : list JConsumerTreeSpec }.

Record JConsumer := mkJConsumer { Kind : string; Spec : JConsumerSpec }.

(** The operating modes of the backend. *)
Inductive Mode := Normal | Maintenance.

Definition Mode_eqb (a b : Mode) : bool :=
  match a, b with
  | Normal, Normal | Maintenance, Maintenance => true
  | _, _ => false
  end.

(** What [AllocateForest] returns. *)
Record AllocationResponse := mkAllocationResponse {
  IsAllocated : bool;
  GetMessage : string;
  GetPreemptedIds : list string
}.

(** [(response, nil)] or [(response-or-nil, err)]. *)
Inductive AllocResult :=
| AllocOK (r : AllocationResponse)
| AllocFailed (r : option AllocationResponse) (e : string).

(** *** The collaborators

    The quota backend ([qmbackend.Manager], state [B]), its consumer
    descriptions ([CI]), the resource plan manager (state [R]) and the id
    helpers of package [util] are not part of this development: each is a
    deterministic function of the state it is called on. *)
Class Collaborators (B R CI : Type) := {
  DefaultConsumerKind : string;
  NewConsumerInfo : JConsumer -> CI * option string;
  GetID : CI -> string;
  GetMode : B -> Mode;
  SetMode : Mode -> B -> B;
  GetTreeNames : B -> list string;
  GetResourceNames : string -> B -> list string;
  UpdateForest : string -> B -> (list string * list (string * list string) * option string) * B;
  AddConsumer : CI -> B -> B;
  AllocateForest : string -> string -> B -> AllocResult * B;
  DeAllocateForest : string -> string -> B -> bool * B;
  RemoveConsumer : string -> B -> (bool * option string) * B;
  IsResplanChanged : R -> bool * R;
  LoadResourcePlansIntoBackend : R -> B -> R * B;
  CreateId : string -> string -> string;
  ParseId : string -> string * string
}.

(** The calls made on the backend and on the resource plan manager. *)
Inductive BackendCall :=
| CallGetMode
| CallGetTreeNames
| CallGetTreeCache (treeName : string)
| CallUpdateForest (forest : string)
| CallAddConsumer (id : string)
| CallAllocateForest (forest id : string)
| CallDeAllocateForest (forest id : string)
| CallRemoveConsumer (id : string)
| CallIsResplanChanged
| CallLoadResourcePlansIntoBackend.

(** *** Strings *)

(** An ASCII capital to its small letter. *)
Definition lower (c : ascii) : ascii :=
  let n := nat_of_ascii c in
  if ((65 <=? n) && (n <=? 90))%nat then ascii_of_nat (n + 32) else c.

(** [strings.ToLower], on ASCII letters. *)
Fixpoint ToLower (s : string) : string :=
  match s with
  | EmptyString => EmptyString
  | String c s' => String (lower c) (ToLower s')
  end.

(** [strings.Contains]. *)
Fixpoint Contains (s substr : string) : bool :=
  String.prefix substr s
  || match s with
     | EmptyString => false
     | String _ s' => Contains s' substr
     end.

(** [strings.Compare(a, b) == 0]. *)
Definition same (a b : string) : bool := String.eqb a b.

(** [func isValidQuota(quotaGroup QuotaGroup, qmTreeIDs []string) bool]. *)
Fixpoint isValidQuota (quotaGroup : QuotaGroup) (qmTreeIDs : list string) : bool :=
  match qmTreeIDs with
  | [] => false
  | treeNodeID :: rest =>
      if same treeNodeID (GroupContext quotaGroup) then true
      else isValidQuota quotaGroup rest
  end.

(** *** The quota manager *)

Section Manager.

Context {B R CI : Type} `{!Collaborators B R CI} `{!GoRuntime}.

(** [type QuotaManager struct].  [quotaManagerBackend] is [None] for a nil
    pointer. *)
Record QuotaManager := mkQuotaManager {
  appwrapperLister : string -> string -> AppWrapper + string;
  preemptionEnabled : bool;
  quotaManagerBackend : option B;
  resourcePlanManager : R;
  initializationDone : bool
}.

(** What a method can change once the backend is known to be there: the
    backend, the resource plan manager, and what an observer sees, namely
    the calls made on the two and the [klog] error and warning lines. *)
Record World := mkWorld {
  backend : B;
  plan : R;
  calls : list BackendCall;
  klog : list string
}.

Definition M (A : Type) : Type := World -> A * World.

Definition ret {A} (a : A) : M A := fun w => (a, w).

Definition bind {A C} (c : M A) (k : A -> M C) : M C :=
  fun w => let '(a, w') := c w in k a w'.

#[export] Instance M_ret : MRet M := @ret.
#[export] Instance M_bind : MBind M := fun A C k c => bind c k.

(** A call on the backend. *)
Definition on_backend {A} (ev : BackendCall) (f : B -> A * B) : M A :=
  fun w => let '(a, b) := f (backend w) in
           (a, mkWorld b (plan w) (calls w ++ [ev]) (klog w)).

(** [qm.resourcePlanManager.IsResplanChanged()]. *)
Definition is_resplan_changed : M bool :=
  fun w => let '(c, r) := IsResplanChanged (plan w) in
           (c, mkWorld (backend w) r (calls w ++ [CallIsResplanChanged]) (klog w)).

(** [qm.resourcePlanManager.LoadResourcePlansIntoBackend()]. *)
Definition load_resource_plans_into_backend : M unit :=
  fun w => let '(r, b) := LoadResourcePlansIntoBackend (plan w) (backend w) in
           (tt, mkWorld b r (calls w ++ [CallLoadResourcePlansIntoBackend]) (klog w)).

(** [klog.Errorf] / [klog.Warningf]. *)
Definition log (format : string) (args : list fmt_arg) : M unit :=
  fun w => (tt, mkWorld (backend w) (plan w) (calls w) (klog w ++ [Sprintf format args])).

Definition when (b : bool) (c : M unit) : M unit := if b then c else ret tt.

Fixpoint for_each {A} (l : list A) (body : A -> M unit) : M unit :=
  match l with
  | [] => ret tt
  | x :: l' => body x ;; for_each l' body
  end.

(** [func (qm *QuotaManager) updateForestFromCache() error]. *)
Definition updateForestFromCache : M (option string) :=
  '(unallocatedConsumers, treeCacheCreateResponse, err) ←
    on_backend (CallUpdateForest QuotaManagerForestName)
               (UpdateForest QuotaManagerForestName);
  for_each treeCacheCreateResponse (fun '(k, danglingNodeNames) =>
    for_each danglingNodeNames (fun danglingNodeName =>
      log "[updateForestFromCache] Failure to link node %s to tree %s after Quota Manager Backend Cache refresh."
          [ArgStr danglingNodeName; ArgStr k])) ;;
  for_each unallocatedConsumers (fun unallocatedConsumer =>
    log "[updateForestFromCache] Failure to allocate %s after Quota Manager Backend Cache refresh."
        [ArgStr unallocatedConsumer]) ;;
  ret err.

(** The loop of [getQuotaDesignation] over the keys of the labels;
    [labels[strkey]] is the empty string for a key the map does not have. *)
Fixpoint designations (qmTreeIDs : list string) (labels : gmap string string)
    (keys : list string) (groups : list QuotaGroup)
    (treeNameToResourceTypes : gmap string (list string))
    : M (list QuotaGroup * gmap string (list string)) :=
  match keys with
  | [] => ret (groups, treeNameToResourceTypes)
  | strkey :: rest =>
      let quotaGroup := mkQuotaGroup strkey (default "" (labels !! strkey)) in
      if isValidQuota quotaGroup qmTreeIDs then
        names ← on_backend (CallGetTreeCache (GroupContext quotaGroup))
                  (fun b => (GetResourceNames (GroupContext quotaGroup) b, b));
        designations qmTreeIDs labels rest (groups ++ [quotaGroup])
                     (<[GroupContext quotaGroup := names]> treeNameToResourceTypes)
      else designations qmTreeIDs labels rest groups treeNameToResourceTypes
  end.

(** The inner loop: is [treeName] among the designations? *)
Fixpoint treeFound (treeName : string) (groups : list QuotaGroup) : bool :=
  match groups with
  | [] => false
  | quotaGroup :: rest =>
      if same treeName (GroupContext quotaGroup) then true else treeFound treeName rest
  end.

(** The loop that writes the names of the missing trees to the message. *)
Fixpoint missing_trees (groups : list QuotaGroup) (qmTreeIDs : list string)
    (allocationMessage : string) (numMissingTreesCt : nat) : string :=
  match qmTreeIDs with
  | [] => allocationMessage
  | treeName :: rest =>
      if treeFound treeName groups
      then missing_trees groups rest allocationMessage numMissingTreesCt
      else missing_trees groups rest
             (allocationMessage +:+ (if (numMissingTreesCt <? 1)%nat
                                     then treeName else ", " +:+ treeName))
             (S numMissingTreesCt)
  end.

(** [func (qm *QuotaManager) getQuotaDesignation(aw *arbv1.AppWrapper)
    ([]QuotaGroup, map[string][]string, error)]. *)
Definition getQuotaDesignation (aw : AppWrapper)
    : M (list QuotaGroup * gmap string (list string) * option string) :=
  qmTreeIDs ← on_backend CallGetTreeNames (fun b => (GetTreeNames b, b));
  if (length qmTreeIDs <=? 0)%nat then
    log "[getQuotaDesignation] No quota management IDs defined for quota evalution of for AppWrapper Job: %s/%s"
        [ArgStr (aw_Namespace aw); ArgStr (aw_Name aw)] ;;
    ret ([], ∅, None)
  else
    '(groups, treeNameToResourceTypes) ←
      designations qmTreeIDs (aw_Labels aw) (MapKeys (aw_Labels aw)) [] ∅;
    if (length groups <? length qmTreeIDs)%nat then
      let allocationMessage :=
        missing_trees groups qmTreeIDs "Missing required quota designation: " 0 in
      let err :=
        if (0 <? String.length allocationMessage)%nat
        then Sprintf (allocationMessage +:+ ".") []
        else Sprintf "Unknown error verifying quota designations." [] in
      ret (groups, treeNameToResourceTypes, Some err)
    else
      when (negb (0 <? length groups)%nat)
        (log "[getQuotaDesignation] AppWrapper: %s/%s does not have any quota labels."
             [ArgStr (aw_Namespace aw); ArgStr (aw_Name aw)]) ;;
      ret (groups, treeNameToResourceTypes, None).

(** [int(x)] for an [int64]: the low [uint_bits] bits, signed. *)
Definition int_of_int64 (x : Z) : Z :=
  (x + 2 ^ (uint_bits - 1)) mod 2 ^ uint_bits - 2 ^ (uint_bits - 1).

(** [int(x)] for a [float64]: the integer part when [int] can hold it. *)
Definition int_of_float64 (x : float64) : Z :=
  match integer_part x with
  | Some i => if (MinInt <=? i) && (i <=? MaxInt) then i else int_of_unrepresentable x
  | None => int_of_unrepresentable x
  end.

(** [func (qm *QuotaManager) convertInt64Demand(int64Demand int64) (int, error)]. *)
Definition convertInt64Demand (int64Demand : Z) : Z * option string :=
  if MaxInt <? int64Demand
  then (MaxInt,
        Some (Sprintf "demand %d is larger than Max Quota Management Backend size, resetting demand to %d"
                      [ArgInt int64Demand; ArgInt MaxInt]))
  else (int_of_int64 int64Demand, None).

(** [func (qm *QuotaManager) convertFloat64Demand(floatDemand float64) (int, error)]. *)
Definition convertFloat64Demand (floatDemand : float64) : Z * option string :=
  if float64_gt floatDemand (float64_of_int MaxInt)
  then (MaxInt,
        Some (Sprintf "demand %f is larger than Max Quota Management Backend size, resetting demand to %d"
                      [ArgFloat floatDemand; ArgInt MaxInt]))
  else (int_of_float64 (Trunc floatDemand), None).

(** The [if converErr != nil] block that follows each conversion. *)
Definition next_error (err : option string) (treeResourceType : string)
    (converErr : option string) : option string :=
  match converErr with
  | None => err
  | Some ce =>
      match err with
      | None => Some (Sprintf "resource type: %s %s" [ArgStr treeResourceType; ArgStr ce])
      | Some _ => Some (Sprintf "%w; next error resource type: %s %s"
                                [ArgErr err; ArgStr treeResourceType; ArgStr ce])
      end
  end.

(** The variables of the loop of [getQuotaTreeResourceTypesDemands]. *)
Record Demands := mkDemands {
  demands : gmap string Z;
  demands_err : option string;
  processedResourceTypes : list string
}.

(** One of the three [if strings.Contains(...)] blocks. *)
Definition demand_rule (substr : string) (conv : Z * option string)
    (treeResourceType : string) (acc : Demands) : Demands :=
  if Contains (ToLower treeResourceType) substr then
    let '(demand, converErr) := conv in
    mkDemands (<[treeResourceType := demand]> (demands acc))
              (next_error (demands_err acc) treeResourceType converErr)
              (processedResourceTypes acc ++ [treeResourceType])
  else acc.

(** Body of the loop over the resource types of a tree. *)
Definition demand_step (awResDemands : Resource) (acc : Demands)
    (treeResourceType : string) : Demands :=
  let acc1 := demand_rule "cpu" (convertFloat64Demand (MilliCPU awResDemands))
                          treeResourceType acc in
  let acc2 := demand_rule "memory"
                (convertFloat64Demand
                   (float64_div (Memory awResDemands) (float64_of_int 1000000)))
                treeResourceType acc1 in
  demand_rule "gpu" (convertInt64Demand (GPU awResDemands)) treeResourceType acc2.

(** [func (qm *QuotaManager) getQuotaTreeResourceTypesDemands(awResDemands
    *clusterstateapi.Resource, treeToResourceTypes []string) (map[string]int, error)]. *)
Definition getQuotaTreeResourceTypesDemands (awResDemands : Resource)
    (treeToResourceTypes : list string) : gmap string Z * option string :=
  let acc := fold_left (demand_step awResDemands) treeToResourceTypes
                       (mkDemands ∅ None []) in
  let err :=
    if (length (processedResourceTypes acc) <? length treeToResourceTypes)%nat then
      match demands_err acc with
      | None => Some (Sprintf "resource type processed %v less than expected %v"
                              [ArgStrs (processedResourceTypes acc); ArgStrs treeToResourceTypes])
      | Some _ => Some (Sprintf "%w; next error resource type processed %v less than expected %v"
                                [ArgErr (demands_err acc);
                                 ArgStrs (processedResourceTypes acc); ArgStrs treeToResourceTypes])
      end
    else demands_err acc in
  (demands acc, err).

(** The loop of [buildRequest] over the designations. *)
Fixpoint consumer_trees (qm : QuotaManager) (aw : AppWrapper) (awId : string)
    (awResDemands : Resource) (treeNameToResourceTypes : gmap string (list string))
    (quotaTreeDesignations : list QuotaGroup) (consumerTrees : list JConsumerTreeSpec)
    : M (list JConsumerTreeSpec) :=
  match quotaTreeDesignations with
  | [] => ret consumerTrees
  | quotaTreeDesignation :: rest =>
      let unPreemptable := negb (preemptionEnabled qm) in
      let quotaTreeName := GroupContext quotaTreeDesignation in
      let '(demands, err) :=
        getQuotaTreeResourceTypesDemands awResDemands
          (default [] (treeNameToResourceTypes !! quotaTreeName)) in
      when (bool_decide (err <> None))
        (log "[buildRequest] Failure building quota resource demands for AppWrapper %s/%s, err=%#v"
             [ArgStr (aw_Namespace aw); ArgStr (aw_Name aw); ArgErr err]) ;;
      let priority := aw_Priority aw in
      let consumerTreeSpec :=
        mkJConsumerTreeSpec awId (GroupContext quotaTreeDesignation)
          (GroupId quotaTreeDesignation) demands priority 0 unPreemptable in
      consumer_trees qm aw awId awResDemands treeNameToResourceTypes rest
                     (consumerTrees ++ [consumerTreeSpec])
  end.

(** [func (qm *QuotaManager) buildRequest(aw *arbv1.AppWrapper, awResDemands
    *clusterstateapi.Resource) ( *qmbackend.ConsumerInfo, error)]: [inl err]
    for [return nil, err], [inr] for what [NewConsumerInfo] returned. *)
Definition buildRequest (qm : QuotaManager) (aw : AppWrapper) (awResDemands : Resource)
    : M (string + CI * option string) :=
  let awId := CreateId (aw_Namespace aw) (aw_Name aw) in
  if (String.length awId <=? 0)%nat then
    ret (inl (Sprintf "[buildRequest] Request failed due to invalid AppWrapper due to empty namespace: %s or name:%s."
                      [ArgStr (aw_Namespace aw); ArgStr (aw_Name aw)]))
  else
    '(quotaTreeDesignations, treeNameToResourceTypes, err) ← getQuotaDesignation aw;
    match err with
    | Some e => ret (inl e)
    | None =>
        consumerTrees ←
          consumer_trees qm aw awId awResDemands treeNameToResourceTypes
                         quotaTreeDesignations [];
        let consumerSpec := mkJConsumerSpec awId consumerTrees in
        let consumer := mkJConsumer DefaultConsumerKind consumerSpec in
        ret (inr (NewConsumerInfo consumer))
    end.

(** The loop of [getAppWrappers]. *)
Fixpoint resolve (qm : QuotaManager) (preemptIds : list string) (aws : list AppWrapper)
    : M (list AppWrapper) :=
  match preemptIds with
  | [] => ret aws
  | preemptId :: rest =>
      let '(awNamespace, awName) := ParseId preemptId in
      if (String.length awNamespace <=? 0)%nat || (String.length awName <=? 0)%nat then
        log "[getAppWrappers] Failed to parse AppWrapper id from quota manager, parse string: %s.  Preemption of this Id will be ignored."
            [ArgStr preemptId] ;;
        resolve qm rest aws
      else
        match appwrapperLister qm awNamespace awName with
        | inr e =>
            log "[getAppWrappers] Failed to get AppWrapper from API Cache %s/%s, err=%v.  Preemption of this Id will be ignored."
                [ArgStr awNamespace; ArgStr awName; ArgErr (Some e)] ;;
            resolve qm rest aws
        | inl aw => resolve qm rest (aws ++ [aw])
        end
  end.

(** [func (qm *QuotaManager) getAppWrappers(preemptIds []string) []*arbv1.AppWrapper]. *)
Definition getAppWrappers (qm : QuotaManager) (preemptIds : list string)
    : M (list AppWrapper) :=
  if (length preemptIds <=? 0)%nat then ret []
  else
    aws ← resolve qm preemptIds [];
    when (negb (length preemptIds =? length aws)%nat)
      (log "[getAppWrappers] Preemption list size of %d from quota manager does not match size of generated list of AppWrapper: %d"
           [ArgInt (Z.of_nat (length preemptIds)); ArgInt (Z.of_nat (length aws))]) ;;
    ret aws.

(** The block of [Fits] that refreshes the backend cache and the trees
    when the resource plans have changed. *)
Definition refresh_on_change : M unit :=
  changed ← is_resplan_changed;
  when changed
    (load_resource_plans_into_backend ;;
     err ← updateForestFromCache;
     when (bool_decide (err <> None))
       (log "[Fits] Failure during refresh of quota tree(s), err=%#v." [ArgErr err])).

(** [Fits] once [qm.quotaManagerBackend] has been found not to be nil. *)
Definition Fits_with_backend (qm : QuotaManager) (aw : AppWrapper)
    (awResDemands : Resource) (proposedPreemptions : list AppWrapper)
    : M (bool * list AppWrapper * string) :=
  let doesFit := false in
  mode ← on_backend CallGetMode (fun b => (GetMode b, b));
  if Mode_eqb mode Maintenance && initializationDone qm then
    log "[Fits] Quota Manager backend in maintenance mode.  Unable to process request for AppWrapper: %s/%s"
        [ArgStr (aw_Namespace aw); ArgStr (aw_Name aw)] ;;
    ret (doesFit, [], "Quota Manager backend in maintenance mode")
  else
    refresh_on_change ;;
    request ← buildRequest qm aw awResDemands;
    match request with
    | inl e | inr (_, Some e) =>
        log "[Fits] Creation of quota request failed: %s/%s, err=%#v."
            [ArgStr (aw_Namespace aw); ArgStr (aw_Name aw); ArgErr (Some e)] ;;
        ret (doesFit, [], e)
    | inr (consumerInfo, None) =>
        on_backend (CallAddConsumer (GetID consumerInfo))
                   (fun b => (tt, AddConsumer consumerInfo b)) ;;
        let consumerID := GetID consumerInfo in
        allocResponse ←
          on_backend (CallAllocateForest QuotaManagerForestName consumerID)
                     (AllocateForest QuotaManagerForestName consumerID);
        match allocResponse with
        | AllocFailed (Some r) e =>
            if (0 <? String.length (GetMessage r))%nat then
              log "[Fits] Error allocating consumer: %s/%s, msg=%s, err=%#v."
                  [ArgStr (aw_Namespace aw); ArgStr (aw_Name aw);
                   ArgStr (GetMessage r); ArgErr (Some e)] ;;
              ret (doesFit, [], GetMessage r)
            else
              log "[Fits] Error allocating consumer: %s/%s, err=%#v."
                  [ArgStr (aw_Namespace aw); ArgStr (aw_Name aw); ArgErr (Some e)] ;;
              ret (doesFit, [], e)
        | AllocFailed None e =>
            log "[Fits] Error allocating consumer: %s/%s, err=%#v."
                [ArgStr (aw_Namespace aw); ArgStr (aw_Name aw); ArgErr (Some e)] ;;
            ret (doesFit, [], e)
        | AllocOK r =>
            let doesFit := IsAllocated r in
            when (0 <? String.length (GetMessage r))%nat
              (log "[Fits] Response from Quota Management backend: %s"
                   [ArgStr (GetMessage r)]) ;;
            preemptIds ← getAppWrappers qm (GetPreemptedIds r);
            ret (doesFit, preemptIds, GetMessage r)
        end
    end.

(** What a method of the manager hands back: its result, the manager
    afterwards, the calls it made and the lines it logged. *)
Record Run (A : Type) := mkRun {
  result : A;
  manager : QuotaManager;
  made : list BackendCall;
  logged : list string
}.
Arguments mkRun {A}.
Arguments result {A}.
Arguments manager {A}.
Arguments made {A}.
Arguments logged {A}.

Definition run {A} (qm : QuotaManager) (b : B) (c : M A) : Run A :=
  let '(a, w) := c (mkWorld b (resourcePlanManager qm) [] []) in
  mkRun a (mkQuotaManager (appwrapperLister qm) (preemptionEnabled qm)
                          (Some (backend w)) (plan w) (initializationDone qm))
        (calls w) (klog w).

(** [func (qm *QuotaManager) Fits(aw *arbv1.AppWrapper, awResDemands
    *clusterstateapi.Resource, proposedPreemptions []*arbv1.AppWrapper)
    (bool, []*arbv1.AppWrapper, string)].  A nil slice is the empty list. *)
Definition Fits (qm : QuotaManager) (aw : AppWrapper) (awResDemands : Resource)
    (proposedPreemptions : list AppWrapper) : Run (bool * list AppWrapper * string) :=
  match quotaManagerBackend qm with
  | None => mkRun (false, [], "No quota manager backend exists") qm [] []
  | Some b => run qm b (Fits_with_backend qm aw awResDemands proposedPreemptions)
  end.

(** [Release] once [qm.quotaManagerBackend] has been found not to be nil. *)
Definition Release_with_backend (qm : QuotaManager) (aw : AppWrapper) : M bool :=
  let released := false in
  let awId := CreateId (aw_Namespace aw) (aw_Name aw) in
  if (String.length awId <=? 0)%nat then
    log "[Release] Request failed due to invalid AppWrapper due to empty namespace: %s or name:%s."
        [ArgStr (aw_Namespace aw); ArgStr (aw_Name aw)] ;;
    ret released
  else
    released ←
      on_backend (CallDeAllocateForest QuotaManagerForestName awId)
                 (DeAllocateForest QuotaManagerForestName awId);
    when (negb released)
      (log "[Release] Quota release for %s/%s failed."
           [ArgStr (aw_Namespace aw); ArgStr (aw_Name aw)]) ;;
    '(success, err) ← on_backend (CallRemoveConsumer awId) (RemoveConsumer awId);
    when (bool_decide (err <> None))
      (log "[Release] Error removing Quota request definition id: %s for AppWrapper %s/%s, err=%#v."
           [ArgStr awId; ArgStr (aw_Namespace aw); ArgStr (aw_Name aw); ArgErr err]) ;;
    when (negb success)
      (log "[Release] Removing Quota request definition for %s/%s unsuccessful."
           [ArgStr (aw_Namespace aw); ArgStr (aw_Name aw)]) ;;
    ret released.

(** [func (qm *QuotaManager) Release(aw *arbv1.AppWrapper) bool]. *)
Definition Release (qm : QuotaManager) (aw : AppWrapper) : Run bool :=
  match quotaManagerBackend qm with
  | None =>
      mkRun false qm []
            [Sprintf "[Release] No quota manager backend exists, Quota release %s/%s fails quota by default."
                     [ArgStr (aw_Name aw); ArgStr (aw_Namespace aw)]]
  | Some b => run qm b (Release_with_backend qm aw)
  end.

End Manager.

Arguments mkRun {B R A}.
Arguments result {B R A}.
Arguments manager {B R A}.
Arguments made {B R A}.
Arguments logged {B R A}.

End QuotaManager.

(** ** The ledger: what the properties speak of *)

Module ApiSpec.
Import Api.

(** The condition under which a subtraction stores the exact difference:
    the raw policy, or no underflow signalled. *)
Definition exact (p : UnderflowPolicy) (e : option string) : Prop :=
  p = RawDifference \/ e = None.

(** Releasing after [AddTask] has stored the task on a bound ledger. *)
Definition releasing_after_add (ni : NodeInfo) (t : TaskInfo) : Resource :=
  if TaskStatus.eqb (Status t) TaskStatus.Releasing
  then Add (Releasing ni) (Resreq t) else Releasing ni.

(** Releasing, and the error of its subtraction, when [RemoveTask] takes
    the stored task off a bound ledger. *)
Definition releasing_after_remove p (ni : NodeInfo) (t : TaskInfo) : Resource * option string :=
  if TaskStatus.eqb (Status t) TaskStatus.Releasing
  then Sub p (Releasing ni) (Resreq t) else (Releasing ni, None).


(** *** Sample nodes and tasks *)

(** The node of the spec's example: 4000 millicores, 8 x 10^9 bytes. *)
Definition node4000 : v1Node :=
  mkNode "n1" ∅ (mkResource 4000 8000000000 0) (mkResource 4000 8000000000 0) false [].

Definition node8000 : v1Node :=
  mkNode "n1" ∅ (mkResource 8000 8000000000 0) (mkResource 8000 8000000000 0) false [].

Definition task1 : TaskInfo :=
  mkTaskInfo "ns" "t1" (mkPod "ns" "t1") (mkResource 1000 0 0) TaskStatus.Running.

Definition task1_releasing : TaskInfo :=
  mkTaskInfo "ns" "t1" (mkPod "ns" "t1") (mkResource 500 0 0) TaskStatus.Releasing.

Definition task_big : TaskInfo :=
  mkTaskInfo "ns" "big" (mkPod "ns" "big") (mkResource 5000 0 0) TaskStatus.Running.


End ApiSpec.

(** ** The quota manager: what the properties speak of *)

Module QuotaManagerSpec.
Import QuotaManager.

Section Vocabulary.

Context {B R CI : Type} `{!Collaborators B R CI} `{!GoRuntime}.

Implicit Types (qm : @QuotaManager B R) (aw : AppWrapper) (w : @World B R).

(** A computation only adds to the record of calls. *)
Definition appends {A} (c : M A) : Prop :=
  forall w, exists l, calls (c w).2 = calls w ++ l.

(** The designations the keys of the labels give: one group for each key
    that is a tree name, in the order of the keys. *)
Definition designated (trees : list string) (labels : gmap string string)
    (keys : list string) : list QuotaGroup :=
  (fun k => mkQuotaGroup k (default "" (labels !! k)))
    <$> List.filter
          (fun k => isValidQuota (mkQuotaGroup k (default "" (labels !! k))) trees)
          keys.

(** [reflect] lists each key of a map once. *)
Definition keys_once : Prop :=
  forall labels : gmap string string, MapKeys labels ≡ₚ (map_to_list labels).*1.


(** The trees, among those the backend knows, for which the job has no
    label. *)
Definition missing_labels (labels : gmap string string) (trees : list string)
    : list string :=
  filter (fun t => labels !! t = None) trees.




(** The world in which [Fits] builds its request: the backend has been
    asked for its mode and the resource plans have been checked, and
    reloaded if they had changed. *)
Definition world_at_request qm (b : B) : World :=
  (refresh_on_change (mkWorld b (resourcePlanManager qm) [CallGetMode] [])).2.

(** 2^63 as a [float64]: what [float64(MaxInt)] rounds to. *)
Definition two63 : float64 := S754_finite false 4503599627370496 11.

(** The conversion that decides the demand of a resource type: that of the
    last of the three blocks whose substring the lower-cased name has. *)
Definition demand_for (d : Resource) (t : string) : option (Z * option string) :=
  if Contains (ToLower t) "gpu" then Some (convertInt64Demand (GPU d))
  else if Contains (ToLower t) "memory"
  then Some (convertFloat64Demand (float64_div (Memory d) (float64_of_int 1000000)))
  else if Contains (ToLower t) "cpu" then Some (convertFloat64Demand (MilliCPU d))
  else None.

(** The conversions whose error, if any, is reported for a resource
    type. *)
Definition conversion_fails (d : Resource) (t : string) : Prop :=
  (Contains (ToLower t) "cpu" = true
   /\ is_Some (convertFloat64Demand (MilliCPU d)).2)
  \/ (Contains (ToLower t) "memory" = true
      /\ is_Some (convertFloat64Demand
                    (float64_div (Memory d) (float64_of_int 1000000))).2)
  \/ (Contains (ToLower t) "gpu" = true /\ is_Some (convertInt64Demand (GPU d)).2).

(** The tree of the consumer that [buildRequest] makes of a designation:
    the demands are those of [getQuotaTreeResourceTypesDemands], whether
    or not it returned an error. *)
Definition tree_spec qm aw (awId : string) (d : Resource)
    (m : gmap string (list string)) (g : QuotaGroup) : JConsumerTreeSpec :=
  mkJConsumerTreeSpec awId (GroupContext g) (GroupId g)
    (getQuotaTreeResourceTypesDemands d (default [] (m !! GroupContext g))).1
    (aw_Priority aw) 0 (negb (preemptionEnabled qm)).

End Vocabulary.

(** *** A small forest to run the manager on *)

(** An in-memory backend: its mode, its trees with their resource types,
    the consumers added and those allocated. *)
Record Forest := mkForest {
  forest_mode : Mode;
  forest_trees : list (string * list string);
  forest_consumers : list string;
  forest_allocated : list string
}.

Definition forest_allocate (id : string) (f : Forest) : AllocResult * Forest :=
  if bool_decide (id ∈ forest_consumers f)
  then (AllocOK (mkAllocationResponse true "" []),
        mkForest (forest_mode f) (forest_trees f) (forest_consumers f)
                 (id :: forest_allocated f))
  else (AllocFailed None "consumer not found", f).

Definition forest_deallocate (id : string) (f : Forest) : bool * Forest :=
  (bool_decide (id ∈ forest_allocated f),
   mkForest (forest_mode f) (forest_trees f) (forest_consumers f)
            (List.filter (fun x => negb (String.eqb x id)) (forest_allocated f))).

Definition forest_remove (id : string) (f : Forest) : bool * option string * Forest :=
  if bool_decide (id ∈ forest_consumers f)
  then (true, None,
        mkForest (forest_mode f) (forest_trees f)
                 (List.filter (fun x => negb (String.eqb x id)) (forest_consumers f))
                 (forest_allocated f))
  else (false, Some "consumer not found", f).

Definition forest_id (ns n : string) : string :=
  if ((0 <? String.length ns) && (0 <? String.length n))%nat
  then ns +:+ "/" +:+ n else "".

Definition forest_collaborators : Collaborators Forest bool JConsumer := {|
  DefaultConsumerKind := "Consumer";
  NewConsumerInfo c := (c, None);
  GetID c := cs_ID (Spec c);
  GetMode f := forest_mode f;
  SetMode m f := mkForest m (forest_trees f) (forest_consumers f) (forest_allocated f);
  GetTreeNames f := (forest_trees f).*1;
  GetResourceNames t f :=
    default [] (snd <$> List.find (fun p => String.eqb p.1 t) (forest_trees f));
  UpdateForest _ f := ([], [], None, f);
  AddConsumer c f :=
    mkForest (forest_mode f) (forest_trees f) (cs_ID (Spec c) :: forest_consumers f)
             (forest_allocated f);
  AllocateForest _ id f := forest_allocate id f;
  DeAllocateForest _ id f := forest_deallocate id f;
  RemoveConsumer id f := forest_remove id f;
  IsResplanChanged r := (r, false);
  LoadResourcePlansIntoBackend r f := (r, f);
  CreateId := forest_id;
  ParseId id := (id, "")
|}.

(** A runtime that renders a format as it is and converts what [int]
    cannot represent to the smallest [int]. *)
Definition plain_runtime : GoRuntime := {|
  Sprintf format _ := format;
  MapKeys labels := (map_to_list labels).*1;
  int_of_unrepresentable _ := MinInt
|}.

(** Two trees, A and B, and jobs labelled for A only and for both. *)
Definition forest_AB (m : Mode) : Forest :=
  mkForest m [("A", ["cpu"; "memory"]); ("B", ["gpu"])] [] [].

Definition manager_AB (m : Mode) (done : bool) : QuotaManager :=
  mkQuotaManager (fun _ _ => inr "not found") true (Some (forest_AB m)) false done.

Definition job_A : AppWrapper :=
  mkAppWrapper "ns" "job" {["A" := "group1"]} 0 true.

Definition job_AB : AppWrapper :=
  mkAppWrapper "ns" "job" {["A" := "group1"; "B" := "group2"]} 0 true.

Definition small_demand : Resource :=
  mkResource (float64_of_int 1000) (float64_of_int 2000000000) 1.

End QuotaManagerSpec.

(** ** The ledger over its five mutating methods *)

Module LedgerSpec.
Import Api.

(** A call of one of the five methods that change a ledger. *)
Inductive Step :=
| StepAddTask (task : TaskInfo)
| StepRemoveTask (task : TaskInfo)
| StepUpdateTask (task : TaskInfo)
| StepPipelineTask (task : TaskInfo)
| StepSetNode (node : v1Node).

Definition step (p : UnderflowPolicy) (ni : NodeInfo) (s : Step)
    : NodeInfo * list string :=
  match s with
  | StepAddTask t => let o := AddTask p ni t in (post o, log o)
  | StepRemoveTask t => let o := RemoveTask p ni t in (post o, log o)
  | StepUpdateTask t => let o := UpdateTask p ni t in (post o, log o)
  | StepPipelineTask t => let o := PipelineTask p ni t in (post o, log o)
  | StepSetNode n => SetNode p ni n
  end.

(** A sequence of calls, each on the ledger the previous one left; the
    warnings of all of them. *)
Fixpoint steps (p : UnderflowPolicy) (ni : NodeInfo) (ss : list Step)
    : NodeInfo * list string :=
  match ss with
  | [] => (ni, [])
  | s :: ss' =>
      let '(ni1, w1) := step p ni s in
      let '(ni2, w2) := steps p ni1 ss' in
      (ni2, w1 ++ w2)
  end.

Definition is_SetNode (s : Step) : bool :=
  match s with StepSetNode _ => true | _ => false end.


(** Every tracked task is stored under the key of its pod. *)
Definition keyed (ni : NodeInfo) : Prop :=
  forall k t, Tasks ni !! k = Some t -> PodKey (task_Pod t) = k.

(** The tracked tasks. *)
Definition tracked (ni : NodeInfo) : list TaskInfo := (map_to_list (Tasks ni)).*2.


(** The tasks of a list whose status is Releasing. *)
Definition releasing (ts : list TaskInfo) : list TaskInfo :=
  List.filter (fun t => TaskStatus.eqb (Status t) TaskStatus.Releasing) ts.

(** The pools of a ledger that has no node are all empty. *)
Definition inert (ni : NodeInfo) : Prop :=
  Node ni = None /\ Idle ni = EmptyResource /\ Used ni = EmptyResource
  /\ Releasing ni = EmptyResource.


(** [Clone] when its loop visits the tracked tasks in the order [l]: Go
    leaves the order of [range] over a map open.  [CloneNodeInfo] is the
    case of the order of [map_to_list]. *)
Definition Clone_in_order (p : UnderflowPolicy) (ni : NodeInfo) (l : list TaskInfo)
    : NodeInfo :=
  fold_left (fun res t => post (AddTask p res t)) l (NewNodeInfo (Node ni)).

(** Two ledgers have the same node and the same fields derived from it. *)
Definition same_node (a b : NodeInfo) : Prop :=
  Name a = Name b /\ Node a = Node b /\ Allocatable a = Allocatable b
  /\ Capability a = Capability b /\ Labels a = Labels b
  /\ Unschedulable a = Unschedulable b /\ Taints a = Taints b.



End LedgerSpec.

(** ** Package [quotamanager]: construction and replay *)

Module QuotaManagerInit.
Import QuotaManager.

(** [type TreeNode struct]. *)
#[warnings="-register-all"]
Inductive TreeNode := mkTreeNode {
  Allocation : string;
  Quota : string;
  Name : string;
  Hard : bool;
  Children : list TreeNode;
  Parent : string
}.

(** [func (qm *QuotaManager) addChildrenNodes(parentNode TreeNode, treeIDs
    []string) []string]; the receiver is not used.  The loop over no
    children does nothing, as the guard [len(parentNode.Children) > 0]
    has it. *)
Fixpoint addChildrenNodes (parentNode : TreeNode) (treeIDs : list string)
    : list string :=
  match parentNode with
  | mkTreeNode _ _ name _ children _ =>
      let treeIDs :=
        fold_left (fun treeIDs childNode => addChildrenNodes childNode treeIDs)
                  children treeIDs in
      treeIDs ++ [name]
  end.

(** [func getDispatchedAppWrapper(dispatchedAWs map[string]*arbv1.AppWrapper,
    awId string) *arbv1.AppWrapper]: [None] for nil. *)
Definition getDispatchedAppWrapper (dispatchedAWs : gmap string AppWrapper)
    (awId : string) : option AppWrapper :=
  match dispatchedAWs !! awId with
  | Some aw => if aw_CanRun aw then Some aw else None
  | None => None
  end.

(** The fields of [options.ServerOption] that [NewQuotaManager] reads. *)
Record ServerOption := mkServerOption {
  QuotaEnabled : bool;
  QuotaRestURL : string;
  Preemption : bool
}.

(** What the construction takes from outside this development: a new
    backend, [AddForest], the resource plan manager made for a
    configuration and a backend (its error is dropped by the code), and the
    text [%v] gives for a job pointer. *)
Class Startup (B R Config : Type) := {
  NewManager : B;
  AddForest : string -> B -> B;
  NewResourcePlanManager : Config -> B -> R * B;
  PointerText : AppWrapper -> string
}.

Section Startup.

Context {B R CI Config : Type} `{!Collaborators B R CI} `{!GoRuntime}
        `{!Startup B R Config}.

(** The body of the loop of [loadDispatchedAWs] for one entry [k, v] of
    [dispatchedAWDemands]; [acc] holds [err], the manager as the calls so
    far left it, the calls made and the lines logged. *)
Definition load_step (dispatchedAWs : gmap string AppWrapper)
    (acc : @Run B R (option string)) (entry : string * Resource)
    : @Run B R (option string) :=
  let '(k, v) := entry in
  let qm := manager acc in
  let err := result acc in
  match getDispatchedAppWrapper dispatchedAWs k with
  | Some aw =>
      let r := Fits qm aw v [] in
      let '(doesFit, preemptionIds, err2) := result r in
      let '(err, failed) :=
        if negb doesFit
        then (Some (Sprintf "Loading of AppWrapper %s/%s failed, %#v \n"
                            [ArgStr (aw_Namespace aw); ArgStr (aw_Name aw); ArgStr err2]),
              [Sprintf "[loadDispatchedAWs] Loading of AppWrapper %s/%s failed."
                       [ArgStr (aw_Namespace aw); ArgStr (aw_Name aw)]])
        else (err, []) in
      let '(err, preempted) :=
        if (0 <? length preemptionIds)%nat
        then (Some (match err with
                    | None =>
                        Sprintf "Loading of AppWrapper %s/%s caused invalid preemptions: %v.  Quota Manager is in inconsistent state. \n"
                                [ArgStr (aw_Namespace aw); ArgStr (aw_Name aw);
                                 ArgStrs (PointerText <$> preemptionIds)]
                    | Some _ =>
                        Sprintf "%w; Next error %s Loading of AppWrapper %s/%s caused invalid preemptions: %v.  Quota Manager is in inconsistent state. \n"
                                [ArgErr err; ArgStr (aw_Namespace aw); ArgStr (aw_Name aw);
                                 ArgStrs (PointerText <$> preemptionIds)]
                    end),
              [Sprintf "[loadDispatchedAWs] Loading of AppWrapper %s/%s caused invalid preemptions: %v.  Quota Manager is in inconsistent state."
                       [ArgStr (aw_Namespace aw); ArgStr (aw_Name aw);
                        ArgStrs (PointerText <$> preemptionIds)]])
        else (err, []) in
      mkRun err (manager r) (made acc ++ made r)
            (logged acc ++ logged r ++ failed ++ preempted)
  | None =>
      mkRun err qm (made acc)
            (logged acc
             ++ [Sprintf "[loadDispatchedAWs] Unable to obtain AppWrapper from key: %s.  Loading of AppWrapper will be skipped."
                         [ArgStr k]])
  end.

(** [func (qm *QuotaManager) loadDispatchedAWs(dispatchedAWDemands
    map[string]*clusterstateapi.Resource, dispatchedAWs
    map[string]*arbv1.AppWrapper) error].  Go leaves the order of [range]
    over a map open: [dispatchedAWDemands] is given as its entries in the
    order the loop visits them, the empty list for a nil or empty map. *)
Definition loadDispatchedAWs (qm : @QuotaManager B R)
    (dispatchedAWDemands : list (string * Resource))
    (dispatchedAWs : gmap string AppWrapper) : @Run B R (option string) :=
  if (length dispatchedAWDemands <=? 0)%nat then mkRun None qm [] []
  else fold_left (load_step dispatchedAWs) dispatchedAWDemands (mkRun None qm [] []).

(** [func (qm *QuotaManager) refreshQuotaDefiniions() error]. *)
Definition refreshQuotaDefiniions : @M B R (option string) := updateForestFromCache.

(** [func NewQuotaManager(dispatchedAWDemands, dispatchedAWs, awJobLister,
    config, serverOptions) ( *QuotaManager, error)]: [None] for
    [return nil, nil]; otherwise the error returned, the manager, the calls
    made that [BackendCall] names ([AddForest] and [SetMode] are applied
    to the backend and not recorded), and the lines logged.  The [url]
    field is stored and never read; [QuotaManager] leaves it out. *)
Definition NewQuotaManager (dispatchedAWDemands : list (string * Resource))
    (dispatchedAWs : gmap string AppWrapper)
    (awJobLister : string -> string -> AppWrapper + string)
    (config : Config) (serverOptions : ServerOption)
    : option (@Run B R (option string)) :=
  if negb (QuotaEnabled serverOptions) then None
  else
    let b0 := AddForest QuotaManagerForestName NewManager in
    let '(rpm, b1) := NewResourcePlanManager config b0 in
    let qm := mkQuotaManager awJobLister (Preemption serverOptions) (Some b1) rpm false in
    let r1 := run qm b1 updateForestFromCache in
    let err := result r1 in
    let l1 :=
      if bool_decide (err <> None)
      then [Sprintf "[dispatchedAWDemands] Failure during Quota Manager Backend Cache refresh, err=%#v"
                    [ArgErr err]]
      else [] in
    let r2 := loadDispatchedAWs (manager r1) dispatchedAWDemands dispatchedAWs in
    let err2 := result r2 in
    let '(err, l2) :=
      match err2 with
      | Some e2 =>
          (Some (match err with
                 | Some _ => Sprintf "%w; Next error %s" [ArgErr err; ArgStr e2]
                 | None => e2
                 end),
           [Sprintf "[dispatchedAWDemands] Failure during Quota Manager Backend Cache refresh, err=%#v"
                    [ArgErr err2]])
      | None => (err, [])
      end in
    let qm2 := manager r2 in
    let b2 := SetMode Normal <$> quotaManagerBackend qm2 in
    Some (mkRun err
                (mkQuotaManager (appwrapperLister qm2) (preemptionEnabled qm2) b2
                                (resourcePlanManager qm2) true)
                (made r1 ++ made r2 ++ [CallGetTreeNames])
                (logged r1 ++ l1 ++ logged r2 ++ l2)).

End Startup.

End QuotaManagerInit.

(** ** The quota manager: what further properties speak of *)

Module AdmissionSpec.
Import QuotaManager QuotaManagerSpec QuotaManagerInit.

Section Vocabulary.

Context {B R CI : Type} `{!Collaborators B R CI} `{!GoRuntime}.

Implicit Types (qm : @QuotaManager B R) (aw : AppWrapper) (w : @World B R).

(** The range of [int64]. *)
Definition is_int64 (v : Z) : Prop := - 2 ^ 63 <= v < 2 ^ 63.

(** How many of the three blocks of the loop of
    [getQuotaTreeResourceTypesDemands] a resource type enters. *)
Definition blocks_entered (t : string) : nat :=
  (if Contains (ToLower t) "cpu" then 1 else 0)
  + (if Contains (ToLower t) "memory" then 1 else 0)
  + (if Contains (ToLower t) "gpu" then 1 else 0).

(** Over a list of resource types. *)
Definition blocks_entered_by (l : list string) : nat :=
  foldr (fun t n => (blocks_entered t + n)%nat) 0%nat l.

(** A computation that leaves the backend and the resource plans alone and
    calls neither. *)
Definition quiet {A} (c : M A) : Prop :=
  forall w, backend (c w).2 = backend w /\ plan (c w).2 = plan w
            /\ calls (c w).2 = calls w.

(** The calls [buildRequest] makes for a job when the backend has the
    trees [trees]: none for a job without an id, otherwise one for the
    tree names and one for the resource names of each designated tree. *)
Definition request_calls aw (trees : list string) : list BackendCall :=
  if (String.length (CreateId (aw_Namespace aw) (aw_Name aw)) <=? 0)%nat then []
  else CallGetTreeNames
       :: ((fun g => CallGetTreeCache (GroupContext g))
             <$> designated trees (aw_Labels aw) (MapKeys (aw_Labels aw))).

(** The job an id of the backend stands for, if the id parses and the
    lister has the job. *)
Definition resolved_id qm (preemptId : string) : option AppWrapper :=
  let '(awNamespace, awName) := ParseId preemptId in
  if (String.length awNamespace <=? 0)%nat || (String.length awName <=? 0)%nat
  then None
  else match appwrapperLister qm awNamespace awName with
       | inl aw => Some aw
       | inr _ => None
       end.

(** The jobs a list of ids stands for, in the order of the ids. *)
Definition resolved qm (preemptIds : list string) : list AppWrapper :=
  omap (resolved_id qm) preemptIds.

End Vocabulary.

Section Replay.

Context {B R CI Config : Type} `{!Collaborators B R CI} `{!GoRuntime}
        `{!Startup B R Config}.

(** The runs of [Fits] that replaying the entries of the demands makes,
    each on the manager the previous one left; an entry without a runnable
    job makes none. *)
Fixpoint replayed (qm : @QuotaManager B R) (visit : list (string * Resource))
    (dispatchedAWs : gmap string AppWrapper)
    : list (@Run B R (bool * list AppWrapper * string)) :=
  match visit with
  | [] => []
  | (k, v) :: rest =>
      match getDispatchedAppWrapper dispatchedAWs k with
      | Some aw =>
          let r := Fits qm aw v [] in
          r :: replayed (manager r) rest dispatchedAWs
      | None => replayed qm rest dispatchedAWs
      end
  end.

(** A run of [Fits] that admitted its job and asked for no preemption. *)
Definition admitted (r : @Run B R (bool * list AppWrapper * string)) : Prop :=
  (result r).1.1 = true /\ (result r).1.2 = [].

(** A run of [Fits] that went past the maintenance gate. *)
Definition passed_gate (r : @Run B R (bool * list AppWrapper * string)) : Prop :=
  exists rest, made r = CallGetMode :: CallIsResplanChanged :: rest.

(** The backend [NewQuotaManager] hands to the resource plan manager, and
    the manager as it stands when the replay starts. *)
Definition backend_at_start : B := AddForest QuotaManagerForestName NewManager.

Definition manager_at_replay (awJobLister : string -> string -> AppWrapper + string)
    (config : Config) (serverOptions : ServerOption) : @QuotaManager B R :=
  let created := NewResourcePlanManager config backend_at_start in
  manager (run (mkQuotaManager awJobLister (Preemption serverOptions)
                               (Some created.2) created.1 false)
               created.2 updateForestFromCache).

(** What [Fits] leaves of the manager it runs on. *)
Definition same_settings (qm qm' : @QuotaManager B R) : Prop :=
  appwrapperLister qm' = appwrapperLister qm
  /\ preemptionEnabled qm' = preemptionEnabled qm
  /\ initializationDone qm' = initializationDone qm
  /\ (is_Some (quotaManagerBackend qm) -> is_Some (quotaManagerBackend qm')).

(** The backend answers [GetMode] with the mode it was last set to. *)
Definition mode_is_kept : Prop := forall (m : Mode) (b : B), GetMode (SetMode m b) = m.

(** The id of a consumer is the id of the description it was made of. *)
Definition consumer_id_is_kept : Prop :=
  forall (c : JConsumer) (ci : CI),
    NewConsumerInfo c = (ci, None) -> GetID ci = cs_ID (Spec c).

End Replay.

(** *** A construction to run

    A new backend that starts in Maintenance mode with the trees A and B,
    one dispatched job that can run and one demand whose job is gone. *)
Definition forest_startup : Startup Forest bool unit := {|
  NewManager := forest_AB Maintenance;
  AddForest _ f := f;
  NewResourcePlanManager _ f := (false, f);
  PointerText aw := aw_Name aw
|}.

Definition options_on : ServerOption := mkServerOption true "" true.

Definition no_lister : string -> string -> AppWrapper + string :=
  fun _ _ => inr "not found".

Definition dispatched : gmap string AppWrapper := {["ns/job" := job_AB]}.

Definition dispatched_demands : list (string * Resource) :=
  [("ns/job", small_demand); ("ns/gone", small_demand)].

End AdmissionSpec.

(** ** The ledger: properties *)

Module ApiFacts.
Import Api ApiSpec.


Lemma warn_nil prefix e : warn prefix e = [] <-> e = None.
Proof. destruct e; simpl; split; (congruence || discriminate). Qed.


Lemma Sub_then_Add p r rr :
  exact p (Sub p r rr).2 -> Add (Sub p r rr).1 rr = r.
Proof.
  destruct r as [c m g], rr as [c' m' g']; unfold exact, Sub, Add, underflows; simpl.
  intros [-> | H]; simpl.
  - f_equal; lia.
  - destruct (Z.ltb_spec (c - c') 0), (Z.ltb_spec (m - m') 0),
      (Z.ltb_spec (g - g') 0); simpl in H; try discriminate.
    destruct p; simpl; f_equal; lia.
Qed.




#[local] Arguments Sub : simpl never.
#[local] Arguments Add : simpl never.

(** *** Failed calls *)

(** C6.  [AddTask] of a task whose key is already tracked returns the
    duplicate-task error, and [RemoveTask] of a task whose key is not
    tracked returns the task-not-found error; either call leaves the whole
    ledger (the three pools and the task map included) as it was and logs
    nothing. *)
Theorem failed_AddTask_RemoveTask_leave_ledger p (ni : NodeInfo) (t : TaskInfo) :
  (is_Some (Tasks ni !! PodKey (task_Pod t)) ->
   AddTask p ni t = mkOutcome (Some (already_on_node t ni)) ni [])
  /\ (Tasks ni !! PodKey (task_Pod t) = None ->
      RemoveTask p ni t = mkOutcome (Some (not_on_host t ni)) ni []).
Proof.
  split.
  - intros [old Hold]. unfold AddTask. rewrite Hold. reflexivity.
  - intros Hnone. unfold RemoveTask. rewrite Hnone. reflexivity.
Qed.


(** *** PipelineTask *)


(** On a bound ledger, when the subtraction does not underflow (or [Sub]
    stores the raw difference), Releasing goes down by exactly the
    request. *)
Lemma PipelineTask_Releasing_exact p (ni : NodeInfo) (t : TaskInfo) :
  is_Some (Node ni) ->
  Tasks ni !! PodKey (task_Pod t) = None ->
  p = RawDifference \/ log (PipelineTask p ni t) = [] ->
  Add (Releasing (post (PipelineTask p ni t))) (Resreq t) = Releasing ni.
Proof.
  intros [n Hn] Hk. unfold PipelineTask, Clone. rewrite Hk, Hn.
  pose proof (Sub_then_Add p (Releasing ni) (Resreq t)) as Hexact.
  destruct (Sub p (Releasing ni) (Resreq t)) as [rel e]. cbn [post log fst snd] in *.
  intros Hex. apply Hexact. destruct Hex as [-> | Hl]; [left; reflexivity |].
  right. eapply warn_nil, Hl.
Qed.

(** *** Binding again *)

(** C10.  On a ledger that already has a node, [SetNode] with any node
    keeps Idle, Used, Releasing and the task map, takes Name, the node
    reference, Allocatable, Capability, Labels, Unschedulable and Taints
    from the new node, and logs nothing: the loop over the tracked tasks
    is not run. *)
Theorem SetNode_on_bound_ledger p (ni : NodeInfo) (node : v1Node) :
  is_Some (Node ni) ->
  SetNode p ni node =
  (mkNodeInfo (node_Name node) (Some node)
              (Releasing ni) (Idle ni) (Used ni)
              (NewResource (node_Allocatable node))
              (NewResource (node_Capacity node))
              (NewStringsMap (node_Labels node)) (node_Unschedulable node)
              (NewTaints (node_Taints node)) (Tasks ni),
   []).
Proof.
  intros [n0 Hn]. unfold SetNode. rewrite Hn. reflexivity.
Qed.

(** *** The methods on a bound and on an unbound ledger *)

Lemma AddTask_bound p ni t n :
  Tasks ni !! PodKey (task_Pod t) = None -> Node ni = Some n ->
  AddTask p ni t =
  mkOutcome None
    (set_tasks (set_pools ni (releasing_after_add ni t)
                          (Sub p (Idle ni) (Resreq t)).1 (Add (Used ni) (Resreq t)))
               (<[PodKey (task_Pod t) := t]> (Tasks ni)))
    (warn "[AddTask] Idle resource subtract err=" (Sub p (Idle ni) (Resreq t)).2).
Proof.
  intros Hk Hn. unfold AddTask, Clone, releasing_after_add. rewrite Hk, Hn.
  destruct (Sub p (Idle ni) (Resreq t)) as [idle e]. reflexivity.
Qed.

Lemma AddTask_unbound p ni t :
  Tasks ni !! PodKey (task_Pod t) = None -> Node ni = None ->
  AddTask p ni t =
  mkOutcome None (set_tasks ni (<[PodKey (task_Pod t) := t]> (Tasks ni))) [].
Proof. intros Hk Hn. unfold AddTask, Clone. rewrite Hk, Hn. reflexivity. Qed.

Lemma RemoveTask_bound p ni t task n :
  Tasks ni !! PodKey (task_Pod t) = Some task -> Node ni = Some n ->
  RemoveTask p ni t =
  mkOutcome None
    (set_tasks (set_pools ni (releasing_after_remove p ni task).1
                          (Add (Idle ni) (Resreq task))
                          (Sub p (Used ni) (Resreq task)).1)
               (delete (PodKey (task_Pod t)) (Tasks ni)))
    (warn "[RemoveTask] Node release subtraction err=" (releasing_after_remove p ni task).2
     ++ warn "[RemoveTask] Node usage subtraction err=" (Sub p (Used ni) (Resreq task)).2).
Proof.
  intros Hk Hn. unfold RemoveTask, releasing_after_remove. rewrite Hk, Hn.
  destruct (Sub p (Used ni) (Resreq task)) as [used e].
  destruct (TaskStatus.eqb (Status task) TaskStatus.Releasing).
  - destruct (Sub p (Releasing ni) (Resreq task)) as [rel e']. reflexivity.
  - reflexivity.
Qed.

Lemma RemoveTask_unbound p ni t task :
  Tasks ni !! PodKey (task_Pod t) = Some task -> Node ni = None ->
  RemoveTask p ni t =
  mkOutcome None (set_tasks ni (delete (PodKey (task_Pod t)) (Tasks ni))) [].
Proof. intros Hk Hn. unfold RemoveTask. rewrite Hk, Hn. reflexivity. Qed.

Lemma AddTask_tracked p ni t :
  is_Some (Tasks ni !! PodKey (task_Pod t)) ->
  AddTask p ni t = mkOutcome (Some (already_on_node t ni)) ni [].
Proof. intros [old Hk]. unfold AddTask. rewrite Hk. reflexivity. Qed.

Lemma RemoveTask_untracked p ni t :
  Tasks ni !! PodKey (task_Pod t) = None ->
  RemoveTask p ni t = mkOutcome (Some (not_on_host t ni)) ni [].
Proof. intros Hk. unfold RemoveTask. rewrite Hk. reflexivity. Qed.



(** *** AddTask then RemoveTask *)


(** *** Conservation: Idle + Used = Allocatable *)











(** *** Concrete ledgers *)

(** The example of the spec: add, add again, remove. *)
Example spec_example_ledger p :
  let ni0 := NewNodeInfo (Some node4000) in
  let a := AddTask p ni0 task1 in
  let a' := AddTask p (post a) task1 in
  let r := RemoveTask p (post a') task1 in
  (err a, Idle (post a), Used (post a))
    = (None, mkResource 3000 8000000000 0, mkResource 1000 0 0)
  /\ (err a', Idle (post a'), Used (post a'))
    = (Some "task <ns/t1> already on node <n1>",
       mkResource 3000 8000000000 0, mkResource 1000 0 0)
  /\ (err r, Idle (post r), Used (post r))
    = (None, mkResource 4000 8000000000 0, mkResource 0 0 0).
Proof. destruct p; vm_compute; auto. Qed.





Lemma failed_AddTask_RemoveTask_leave_ledger_witness :
  let ni := post (AddTask RawDifference (NewNodeInfo (Some node4000)) task1) in
  AddTask RawDifference ni task1
    = mkOutcome (Some (already_on_node task1 ni)) ni []
  /\ RemoveTask RawDifference ni task_big
    = mkOutcome (Some (not_on_host task_big ni)) ni [].
Proof.
  split.
  - apply (failed_AddTask_RemoveTask_leave_ledger RawDifference
             (post (AddTask RawDifference (NewNodeInfo (Some node4000)) task1)) task1).
    eexists; vm_compute; reflexivity.
  - apply (failed_AddTask_RemoveTask_leave_ledger RawDifference
             (post (AddTask RawDifference (NewNodeInfo (Some node4000)) task1)) task_big).
    vm_compute; reflexivity.
Defined.

Lemma SetNode_on_bound_ledger_witness :
  let ni := post (AddTask ClampToZero (NewNodeInfo (Some node4000)) task1) in
  SetNode ClampToZero ni node8000 =
  (mkNodeInfo "n1" (Some node8000)
              (Releasing ni) (Idle ni) (Used ni)
              (mkResource 8000 8000000000 0) (mkResource 8000 8000000000 0)
              ∅ false [] (Tasks ni),
   []).
Proof.
  apply (SetNode_on_bound_ledger ClampToZero
           (post (AddTask ClampToZero (NewNodeInfo (Some node4000)) task1)) node8000).
  eexists; vm_compute; reflexivity.
Defined.

End ApiFacts.

(** ** The quota manager: properties *)

Module QuotaManagerFacts.
Import QuotaManager QuotaManagerSpec.

Section Properties.

Context {B R CI : Type} `{!Collaborators B R CI} `{!GoRuntime}.

Implicit Types (qm : @QuotaManager B R) (aw : AppWrapper) (w : @World B R).

#[local] Abbreviation M := (@QuotaManager.M B R) (only parsing).
#[local] Abbreviation appends := (@QuotaManagerSpec.appends B R _).

(** *** What a method appends to the calls *)

Lemma appends_ret {A} (a : A) : appends (mret a : M A).
Proof. intros w. exists []. simpl. symmetry. apply app_nil_r. Qed.

Lemma appends_bind {A C} (c : M A) (k : A -> M C) :
  appends c -> (forall a, appends (k a)) -> appends (mbind k c).
Proof.
  intros Hc Hk w. unfold mbind, M_bind, bind.
  destruct (Hc w) as [l1 H1]. destruct (c w) as [a w1]. simpl in H1.
  destruct (Hk a w1) as [l2 H2]. exists (l1 ++ l2).
  rewrite H2, H1. symmetry. apply app_assoc.
Qed.

Lemma appends_on_backend {A} ev (f : B -> A * B) : appends (on_backend ev f).
Proof.
  intros w. unfold on_backend. destruct (f (backend w)). simpl. eauto.
Qed.

Lemma appends_log format args : appends (log format args).
Proof. intros w. exists []. simpl. symmetry. apply app_nil_r. Qed.

Lemma appends_when b c : appends c -> appends (when b c).
Proof. intros Hc. destruct b; simpl; [exact Hc | apply appends_ret]. Qed.

Lemma appends_for_each {A} (l : list A) body :
  (forall x, appends (body x)) -> appends (for_each l body).
Proof.
  intros Hb. induction l as [|x l IH]; simpl.
  - apply appends_ret.
  - apply appends_bind; [apply Hb | intros _; exact IH].
Qed.

Lemma appends_is_resplan_changed : appends is_resplan_changed.
Proof.
  intros w. unfold is_resplan_changed. destruct (IsResplanChanged (plan w)).
  simpl. eauto.
Qed.

Lemma appends_load : appends load_resource_plans_into_backend.
Proof.
  intros w. unfold load_resource_plans_into_backend.
  destruct (LoadResourcePlansIntoBackend (plan w) (backend w)). simpl. eauto.
Qed.

Ltac appends_step :=
  match goal with
  | |- forall _, _ => intros
  | |- appends (mret _) => apply appends_ret
  | |- appends (ret _) => apply appends_ret
  | |- appends (mbind _ _) => apply appends_bind
  | |- appends (on_backend _ _) => apply appends_on_backend
  | |- appends (log _ _) => apply appends_log
  | |- appends (when _ _) => apply appends_when
  | |- appends (for_each _ _) => apply appends_for_each
  | |- appends is_resplan_changed => apply appends_is_resplan_changed
  | |- appends load_resource_plans_into_backend => apply appends_load
  | |- appends (match ?x with _ => _ end) => destruct x
  end.

Ltac appends_auto := repeat appends_step.

Lemma appends_updateForestFromCache : appends updateForestFromCache.
Proof. unfold updateForestFromCache. appends_auto. Qed.

Lemma appends_refresh_on_change : appends refresh_on_change.
Proof.
  unfold refresh_on_change. appends_auto. apply appends_updateForestFromCache.
Qed.







(** *** Running a computation *)

Lemma bind_eval {A C} (c : M A) (k : A -> M C) w :
  (c ≫= k) w = k (c w).1 (c w).2.
Proof. unfold mbind, M_bind, bind. destruct (c w); reflexivity. Qed.

Lemma on_backend_eval {A} ev (f : B -> A * B) w :
  on_backend ev f w =
  ((f (backend w)).1,
   mkWorld (f (backend w)).2 (plan w) (calls w ++ [ev]) (klog w)).
Proof. unfold on_backend. destruct (f (backend w)); reflexivity. Qed.

Lemma is_resplan_changed_eval w :
  is_resplan_changed w =
  ((IsResplanChanged (plan w)).1,
   mkWorld (backend w) (IsResplanChanged (plan w)).2
           (calls w ++ [CallIsResplanChanged]) (klog w)).
Proof. unfold is_resplan_changed. destruct (IsResplanChanged (plan w)); reflexivity. Qed.

Lemma when_log_eval (c : bool) format args w :
  when c (log format args) w =
  (tt, mkWorld (backend w) (plan w) (calls w)
               (klog w ++ if c then [Sprintf format args] else [])).
Proof.
  destruct c; unfold when, log, ret; [reflexivity |].
  rewrite app_nil_r. destruct w; reflexivity.
Qed.

Lemma QuotaManager_eta qm b :
  quotaManagerBackend qm = Some b ->
  mkQuotaManager (appwrapperLister qm) (preemptionEnabled qm) (Some b)
                 (resourcePlanManager qm) (initializationDone qm) = qm.
Proof. destruct qm; simpl; intros ->; reflexivity. Qed.

Lemma made_run {A} qm (b : B) (c : M A) :
  made (run qm b c) = calls (c (mkWorld b (resourcePlanManager qm) [] [])).2.
Proof. unfold run. destruct (c _); reflexivity. Qed.

Lemma result_run {A} qm (b : B) (c : M A) :
  result (run qm b c) = (c (mkWorld b (resourcePlanManager qm) [] [])).1.
Proof. unfold run. destruct (c _); reflexivity. Qed.

Lemma logged_run {A} qm (b : B) (c : M A) :
  logged (run qm b c) = klog (c (mkWorld b (resourcePlanManager qm) [] [])).2.
Proof. unfold run. destruct (c _); reflexivity. Qed.

(** *** Designations *)





Lemma same_eq (a b : string) : same a b = true <-> a = b.
Proof. apply String.eqb_eq. Qed.

Lemma isValidQuota_spec g (trees : list string) :
  isValidQuota g trees = true <-> GroupContext g ∈ trees.
Proof.
  induction trees as [|t trees IH]; simpl.
  - split; [discriminate | intros H0; inversion H0].
  - rewrite elem_of_cons. destruct (same t (GroupContext g)) eqn:E.
    + apply same_eq in E. split; auto.
    + rewrite IH. split; [auto | intros [Heq | Hin]; [exfalso | exact Hin]].
      unfold same in E. rewrite String.eqb_neq in E. congruence.
Qed.


Lemma designations_groups trees labels keys : forall groups m w,
  (designations trees labels keys groups m w).1.1
  = groups ++ designated trees labels keys.
Proof.
  induction keys as [|k keys IH]; intros groups m w; simpl.
  - unfold designated; simpl. by rewrite app_nil_r.
  - unfold designated in *; simpl.
    destruct (isValidQuota (mkQuotaGroup k (default "" (labels !! k))) trees); simpl.
    + rewrite bind_eval, IH, <- app_assoc. reflexivity.
    + apply IH.
Qed.

(** Reading the resource names of the trees changes neither the backend
    nor the log. *)
Lemma designations_world trees labels keys : forall groups m w,
  backend (designations trees labels keys groups m w).2 = backend w
  /\ klog (designations trees labels keys groups m w).2 = klog w.
Proof.
  induction keys as [|k keys IH]; intros groups m w; simpl.
  - auto.
  - destruct (isValidQuota (mkQuotaGroup k (default "" (labels !! k))) trees);
      simpl; [| apply IH].
    rewrite bind_eval, on_backend_eval. cbn [fst snd].
    match goal with
    | |- context [designations trees labels keys ?g ?m1 ?w1] =>
        destruct (IH g m1 w1) as [H1 H2]
    end.
    split; [exact H1 | exact H2].
Qed.

Lemma MapKeys_elem_of (labels : gmap string string) k :
  keys_once -> k ∈ MapKeys labels <-> is_Some (labels !! k).
Proof.
  intros Hkeys. rewrite (Hkeys labels), list_elem_of_fmap. split.
  - intros [[k' v] [-> Hin]]. apply elem_of_map_to_list in Hin. eauto.
  - intros [v Hv]. exists (k, v). split; [reflexivity |].
    apply elem_of_map_to_list, Hv.
Qed.

Lemma MapKeys_NoDup (labels : gmap string string) :
  keys_once -> NoDup (MapKeys labels).
Proof. intros Hkeys. rewrite (Hkeys labels). apply NoDup_fst_map_to_list. Qed.

Lemma designated_contexts trees (labels : gmap string string) keys t :
  t ∈ GroupContext <$> designated trees labels keys <-> t ∈ trees /\ t ∈ keys.
Proof.
  unfold designated. rewrite <- list_fmap_compose.
  rewrite list_elem_of_fmap. split.
  - intros [k [-> Hin]]. simpl.
    apply list_elem_of_In, filter_In in Hin as [Hin Hv].
    apply list_elem_of_In in Hin.
    apply isValidQuota_spec in Hv. simpl in Hv. eauto.
  - intros [Ht Hk]. exists t. split; [reflexivity |].
    apply list_elem_of_In, filter_In. split.
    + apply list_elem_of_In, Hk.
    + apply isValidQuota_spec. exact Ht.
Qed.

Lemma designated_NoDup trees (labels : gmap string string) keys :
  NoDup keys -> NoDup (GroupContext <$> designated trees labels keys).
Proof.
  unfold designated. rewrite <- list_fmap_compose. intros Hnd.
  induction keys as [|k l IH]; simpl; [constructor |].
  inversion Hnd as [|? ? Hk Hl]; subst.
  destruct (isValidQuota (mkQuotaGroup k (default "" (labels !! k))) trees);
    simpl; [| apply IH, Hl].
  constructor; [| apply IH, Hl].
  intros Hin. apply Hk. apply list_elem_of_fmap in Hin as [k' [Heq Hin]].
  simpl in Heq. subst k'. apply list_elem_of_In, filter_In in Hin as [Hin _].
  apply list_elem_of_In, Hin.
Qed.

(** A job that lacks a label for some tree has fewer designations than
    there are trees. *)
Lemma designated_fewer trees (labels : gmap string string) t :
  keys_once ->
  t ∈ trees -> labels !! t = None ->
  (length (designated trees labels (MapKeys labels)) < length trees)%nat.
Proof.
  intros Hkeys Ht Hnone.
  set (contexts := GroupContext <$> designated trees labels (MapKeys labels)).
  assert (length (t :: contexts) <= length trees)%nat as Hle.
  { apply submseteq_length, NoDup_submseteq.
    - constructor; [| apply designated_NoDup, MapKeys_NoDup, Hkeys].
      intros Hin. apply designated_contexts in Hin as [_ Hin].
      apply MapKeys_elem_of in Hin as [v Hv]; [congruence | exact Hkeys].
    - intros x [-> | Hx]%elem_of_cons; [exact Ht |].
      apply designated_contexts in Hx. tauto. }
  simpl in Hle. subst contexts. rewrite length_fmap in Hle. lia.
Qed.

(** *** The message about missing designations *)









(** *** Converting a demand *)

Lemma float64_of_MaxInt : float64_of_int MaxInt = two63.
Proof. vm_compute. reflexivity. Qed.

Lemma digits2_pos_size m : digits2_pos m = Pos.size m.
Proof. induction m as [m IH|m IH|]; simpl; congruence. Qed.

Lemma digits2_bounds m :
  2 ^ (Zpos (digits2_pos m) - 1) <= Zpos m < 2 ^ Zpos (digits2_pos m).
Proof.
  rewrite digits2_pos_size. split.
  - pose proof (Pos.size_le m) as Hle.
    assert (Zpos (2 ^ Pos.size m) <= Zpos (m~0)) as Hz by exact Hle.
    rewrite Pos2Z.inj_pow in Hz.
    replace (Zpos (Pos.size m)) with (Zpos (Pos.size m) - 1 + 1) in Hz by lia.
    rewrite Z.pow_add_r in Hz by lia. lia.
  - pose proof (Pos.size_gt m) as Hgt.
    assert (Zpos m < Zpos (2 ^ Pos.size m)) as Hz by exact Hgt.
    rewrite Pos2Z.inj_pow in Hz. exact Hz.
Qed.

(** A valid finite [float64] has a mantissa of at most 53 bits, and of
    exactly 53 bits above the smallest exponent. *)
Lemma valid_finite s m e :
  valid_float64 (S754_finite s m e) = true ->
  Zpos m < 2 ^ 53 /\ e <= 971 /\ (-1074 < e -> 2 ^ 52 <= Zpos m).
Proof.
  unfold valid_float64, valid_binary, bounded, canonical_mantissa, fexp, emin,
    prec, emax.
  rewrite andb_true_iff, Z.eqb_eq, Z.leb_le. intros [Hc He].
  pose proof (digits2_bounds m) as [Hlo Hhi].
  assert (Zpos (digits2_pos m) <= 53) as Hd by lia.
  split; [| split; [lia |]].
  - eapply Z.lt_le_trans; [exact Hhi |]. apply Z.pow_le_mono_r; lia.
  - intros Hmin. assert (Zpos (digits2_pos m) = 53) as Hd53 by lia.
    rewrite Hd53 in Hlo. exact Hlo.
Qed.

(** The comparison of [convertFloat64Demand] on a valid [float64]: it
    holds for plus infinity and for the finite values above 2^63, and for
    no other. *)
Lemma gt_MaxInt_spec (f : float64) :
  valid_float64 f = true ->
  float64_gt f (float64_of_int MaxInt) = true
  <-> match f with
      | S754_infinity false => True
      | S754_finite false m e => MaxInt + 1 < Z.shiftl (Zpos m) e
      | _ => False
      end.
Proof.
  intros Hv. rewrite float64_of_MaxInt. unfold float64_gt, SFltb, two63.
  destruct f as [s|s| |s m e]; cbv beta iota delta [SFcompare].
  - destruct s; split; (discriminate || tauto).
  - destruct s; split; (discriminate || tauto).
  - split; (discriminate || tauto).
  - destruct s; [split; (discriminate || tauto) |].
    apply valid_finite in Hv as (Hm & He & Hnorm).
    change (MaxInt + 1) with 9223372036854775808.
    change (2 ^ 53) with 9007199254740992 in Hm.
    change (2 ^ 52) with 4503599627370496 in Hnorm.
    destruct (Z.compare_spec 11 e) as [<- | Hlt | Hgt].
    + rewrite Z.shiftl_mul_pow2 by lia. change (2 ^ 11) with 2048.
      rewrite Pos.compare_cont_spec. simpl Pos.switch_Eq.
      destruct (Pos.compare_spec 4503599627370496 m) as [<- | Hlt | Hgt].
      * split; [discriminate | intros Habs; exfalso; lia].
      * apply Pos2Z.pos_lt_pos in Hlt. split; [lia | reflexivity].
      * apply Pos2Z.pos_lt_pos in Hgt.
        split; [discriminate | intros Habs; exfalso; lia].
    + split; [intros _ | reflexivity].
      rewrite Z.shiftl_mul_pow2 by lia.
      specialize (Hnorm ltac:(lia)).
      assert (2 ^ 12 <= 2 ^ e) as Hp by (apply Z.pow_le_mono_r; lia).
      change (2 ^ 12) with 4096 in Hp. nia.
    + split; [discriminate | intros Habs; exfalso].
      destruct (Z.le_gt_cases 0 e) as [Hpos | Hneg].
      * rewrite Z.shiftl_mul_pow2 in Habs by lia.
        assert (2 ^ e <= 2 ^ 10) as Hp by (apply Z.pow_le_mono_r; lia).
        assert (0 < 2 ^ e) by (apply Z.pow_pos_nonneg; lia).
        change (2 ^ 10) with 1024 in Hp. nia.
      * rewrite Z.shiftl_div_pow2 in Habs by lia.
        assert (0 < 2 ^ (- e)) by (apply Z.pow_pos_nonneg; lia).
        assert (Zpos m / 2 ^ (- e) <= Zpos m)
          by (apply Z.div_le_upper_bound; nia).
        lia.
Qed.

(** Above 2^63 (and at plus infinity) the demand is reset to [MaxInt] and
    an error is returned; everywhere else no error is returned. *)
Lemma convertFloat64Demand_spec (f : float64) :
  valid_float64 f = true ->
  if float64_gt f (float64_of_int MaxInt)
  then convertFloat64Demand f =
       (MaxInt,
        Some (Sprintf "demand %f is larger than Max Quota Management Backend size, resetting demand to %d"
                      [ArgFloat f; ArgInt MaxInt]))
       /\ match f with
          | S754_infinity false => True
          | S754_finite false m e => MaxInt + 1 < Z.shiftl (Zpos m) e
          | _ => False
          end
  else convertFloat64Demand f = (int_of_float64 (Trunc f), None).
Proof.
  intros Hv. pose proof (gt_MaxInt_spec f Hv) as Hgt. unfold convertFloat64Demand.
  destruct (float64_gt f (float64_of_int MaxInt)); [| reflexivity].
  split; [reflexivity | apply Hgt; reflexivity].
Qed.

(** *** Truncation *)

Lemma iter_xO_digits p k :
  Zpos (digits2_pos (Pos.iter xO p k)) = Zpos (digits2_pos p) + Zpos k.
Proof.
  induction k as [|k IH] using Pos.peano_ind.
  - simpl. lia.
  - rewrite Pos.iter_succ. simpl digits2_pos. lia.
Qed.

Lemma iter_xO_value p k : Zpos (Pos.iter xO p k) = Zpos p * 2 ^ Zpos k.
Proof.
  induction k as [|k IH] using Pos.peano_ind.
  - simpl. lia.
  - rewrite Pos.iter_succ, Pos2Z.inj_succ, Z.pow_succ_r by lia.
    rewrite Pos2Z.inj_xO, IH. lia.
Qed.

(** A mantissa of 53 bits needs no rounding. *)
Lemma shr_fexp_exact mz ez :
  Zpos (digits2_pos mz) = 53 -> -1074 <= ez ->
  shr_fexp prec emax (Zpos mz) ez loc_Exact
  = (Build_shr_record (Zpos mz) false false, ez).
Proof.
  intros Hd Hez. unfold shr_fexp, fexp, emin, prec, emax. simpl Zdigits2.
  rewrite Hd. replace (Z.max (53 + ez - 53) (3 - 1024 - 53) - ez) with 0 by lia.
  reflexivity.
Qed.

Lemma binary_round_aux_exact s mz ez :
  Zpos (digits2_pos mz) = 53 -> -1074 <= ez <= 971 ->
  binary_round_aux prec emax s (Zpos mz) ez loc_Exact = S754_finite s mz ez.
Proof.
  intros Hd [Hlo Hhi]. unfold binary_round_aux.
  rewrite shr_fexp_exact by assumption. cbn [shr_m loc_of_shr_record round_nearest_even].
  rewrite shr_fexp_exact by assumption. cbn [shr_m].
  replace (ez <=? emax - prec) with true; [reflexivity |].
  symmetry. apply Z.leb_le. unfold emax, prec. lia.
Qed.

(** Rounding an integer below 2^53 gives a float with that very value. *)
Lemma binary_round_small s p :
  Zpos p < 2 ^ 53 ->
  exists mz ez, binary_round prec emax s p 0 = S754_finite s mz ez
                /\ Z.shiftl (Zpos mz) ez = Zpos p.
Proof.
  intros Hp. pose proof (digits2_bounds p) as [Hlo Hhi].
  assert (0 < Zpos (digits2_pos p) <= 53) as [Hd0 Hd].
  { split; [lia |]. destruct (Z.le_gt_cases (Zpos (digits2_pos p)) 53) as [|Hgt]; [assumption |].
    exfalso. assert (2 ^ 53 <= 2 ^ (Zpos (digits2_pos p) - 1))
      by (apply Z.pow_le_mono_r; lia). lia. }
  assert (fexp prec emax (Zpos (digits2_pos p) + 0) = Zpos (digits2_pos p) - 53)
    as Hfexp by (unfold fexp, emin, prec, emax; lia).
  unfold binary_round. rewrite Hfexp. unfold shl_align.
  rewrite Z.sub_0_r.
  destruct (Zpos (digits2_pos p) - 53) as [|q|k] eqn:Hk; [| lia |].
  - exists p, 0. split; [| apply Z.shiftl_0_r].
    apply binary_round_aux_exact; lia.
  - exists (Pos.iter xO p k), (Zneg k). split.
    + apply binary_round_aux_exact; [rewrite iter_xO_digits |]; lia.
    + rewrite Z.shiftl_div_pow2 by lia. rewrite iter_xO_value.
      change (- Zneg k) with (Zpos k). apply Z.div_mul.
      apply Z.pow_nonzero; lia.
Qed.

Lemma binary_normalize_small z s0 :
  - 2 ^ 53 < z < 2 ^ 53 ->
  integer_part (binary_normalize prec emax z 0 s0) = Some z.
Proof.
  intros Hz. destruct z as [|p|p]; simpl binary_normalize.
  - reflexivity.
  - destruct (binary_round_small false p) as (mz & ez & -> & Hv); [lia |].
    simpl. by rewrite Hv.
  - destruct (binary_round_small true p) as (mz & ez & -> & Hv); [lia |].
    simpl. by rewrite Hv.
Qed.

(** [math.Trunc] keeps the integer part. *)
Lemma Trunc_integer_part (f : float64) :
  valid_float64 f = true -> integer_part (Trunc f) = integer_part f.
Proof.
  intros Hv. destruct f as [s|s| |s m e]; try reflexivity.
  unfold Trunc. destruct (Z.ltb_spec e 0) as [Hneg|]; [| reflexivity].
  apply valid_finite in Hv as (Hm & _ & _).
  rewrite binary_normalize_small; [reflexivity |].
  rewrite Z.shiftl_div_pow2 by lia.
  assert (0 < 2 ^ (- e)) by (apply Z.pow_pos_nonneg; lia).
  assert (0 <= Zpos m / 2 ^ (- e) <= Zpos m).
  { split; [apply Z.div_pos; lia | apply Z.div_le_upper_bound; nia]. }
  destruct s; simpl; lia.
Qed.

(** A demand whose integer part [int] can hold is passed on as that
    integer, with no error. *)
Lemma convertFloat64Demand_in_range (f : float64) i :
  valid_float64 f = true ->
  integer_part f = Some i -> MinInt <= i <= MaxInt ->
  convertFloat64Demand f = (i, None).
Proof.
  intros Hv Hi [Hlo Hhi].
  pose proof (convertFloat64Demand_spec f Hv) as Hspec.
  destruct (float64_gt f (float64_of_int MaxInt)).
  - destruct Hspec as [_ Habove]. exfalso.
    destruct f as [s|s| |s m e]; try discriminate; try contradiction.
    destruct s; [contradiction |]. simpl in Hi. injection Hi as <-. lia.
  - rewrite Hspec. unfold int_of_float64.
    rewrite Trunc_integer_part, Hi by exact Hv.
    replace ((MinInt <=? i) && (i <=? MaxInt)) with true; [reflexivity |].
    symmetry. apply andb_true_iff. split; apply Z.leb_le; assumption.
Qed.

(** *** The demands of a tree *)

Lemma demand_step_lookup d acc x t :
  demands (demand_step d acc x) !! t =
  if decide (x = t)
  then match demand_for d t with
       | Some v => Some v.1
       | None => demands acc !! t
       end
  else demands acc !! t.
Proof.
  unfold demand_step, demand_rule, demand_for.
  destruct (decide (x = t)) as [-> | Hne].
  - destruct (Contains (ToLower t) "cpu"), (Contains (ToLower t) "memory"),
      (Contains (ToLower t) "gpu");
      repeat match goal with
             | |- context [let '(_, _) := ?c in _] => destruct c
             end; simpl; rewrite ?lookup_insert_eq; reflexivity.
  - destruct (Contains (ToLower x) "cpu"), (Contains (ToLower x) "memory"),
      (Contains (ToLower x) "gpu");
      repeat match goal with
             | |- context [let '(_, _) := ?c in _] => destruct c
             end; simpl; rewrite ?lookup_insert_ne by exact Hne; reflexivity.
Qed.

Lemma demands_fold_lookup d l t : forall acc,
  demands (fold_left (demand_step d) l acc) !! t =
  match (if decide (t ∈ l) then demand_for d t else None) with
  | Some v => Some v.1
  | None => demands acc !! t
  end.
Proof.
  induction l as [|x l IH]; intros acc; simpl.
  - reflexivity.
  - rewrite IH, demand_step_lookup.
    destruct (decide (t ∈ l)) as [Hin | Hnin],
      (decide (t ∈ x :: l)) as [Hin' | Hnin'],
      (decide (x = t)) as [-> | Hne];
      try (exfalso; apply Hnin'; apply elem_of_cons; auto; fail);
      try (destruct (demand_for d t); reflexivity).
    exfalso. apply elem_of_cons in Hin' as [-> | Hin']; auto.
Qed.

(** The demand map of a tree has, for each of its resource types that one
    of the three blocks recognizes, what the conversion returned, with or
    without an error. *)
Lemma demands_lookup d l t :
  (getQuotaTreeResourceTypesDemands d l).1 !! t =
  if decide (t ∈ l) then fst <$> demand_for d t else None.
Proof.
  unfold getQuotaTreeResourceTypesDemands. cbn [fst].
  rewrite demands_fold_lookup. cbn [demands]. rewrite lookup_empty.
  destruct (decide (t ∈ l)); [| reflexivity].
  destruct (demand_for d t); reflexivity.
Qed.

Lemma next_error_Some (err : option string) t (converErr : option string) :
  is_Some err \/ is_Some converErr -> is_Some (next_error err t converErr).
Proof.
  unfold next_error. intros [[x Hx] | [x Hx]]; destruct converErr, err; eauto;
    discriminate.
Qed.

Lemma demand_rule_err substr conv t acc :
  is_Some (demands_err acc)
  \/ (Contains (ToLower t) substr = true /\ is_Some conv.2) ->
  is_Some (demands_err (demand_rule substr conv t acc)).
Proof.
  unfold demand_rule. destruct conv as [v ce]. simpl.
  destruct (Contains (ToLower t) substr); simpl.
  - intros [He | [_ Hce]]; apply next_error_Some; auto.
  - intros [He | [Hc _]]; [exact He | discriminate].
Qed.

Lemma demand_step_err d acc x :
  is_Some (demands_err acc) \/ conversion_fails d x ->
  is_Some (demands_err (demand_step d acc x)).
Proof.
  unfold demand_step, conversion_fails. intros Hc.
  apply demand_rule_err.
  destruct Hc as [He | [Hcpu | [Hmem | Hgpu]]]; [| | | right; exact Hgpu];
    left; apply demand_rule_err;
    [left | left | right; exact Hmem]; apply demand_rule_err; auto.
Qed.

Lemma demands_fold_err d l : forall acc,
  is_Some (demands_err acc) \/ (exists t, t ∈ l /\ conversion_fails d t) ->
  is_Some (demands_err (fold_left (demand_step d) l acc)).
Proof.
  induction l as [|x l IH]; intros acc Hc; simpl.
  - destruct Hc as [He | (t & Hin & _)]; [exact He | inversion Hin].
  - apply IH. destruct Hc as [He | (t & Hin & Ht)].
    + left. apply demand_step_err. auto.
    + apply elem_of_cons in Hin as [-> | Hin].
      * left. apply demand_step_err. auto.
      * right. eauto.
Qed.

(** A conversion error on one of the resource types of the tree makes
    [getQuotaTreeResourceTypesDemands] return an error. *)
Lemma demands_error d l t :
  t ∈ l -> conversion_fails d t ->
  is_Some (getQuotaTreeResourceTypesDemands d l).2.
Proof.
  intros Hin Ht. unfold getQuotaTreeResourceTypesDemands. cbn [snd].
  pose proof (demands_fold_err d l (mkDemands ∅ None [])
                (or_intror (ex_intro _ t (conj Hin Ht)))) as [e He].
  rewrite He. destruct (_ <? _)%nat; eauto.
Qed.

Lemma consumer_trees_result qm aw awId d m gs : forall acc w,
  (consumer_trees qm aw awId d m gs acc w).1 = acc ++ (tree_spec qm aw awId d m <$> gs)
  /\ backend (consumer_trees qm aw awId d m gs acc w).2 = backend w.
Proof.
  induction gs as [|g gs IH]; intros acc w.
  - simpl. rewrite app_nil_r. auto.
  - cbn [consumer_trees]. rewrite fmap_cons. unfold tree_spec at 1.
    destruct (getQuotaTreeResourceTypesDemands d (default [] (m !! GroupContext g)))
      as [dem e].
    rewrite bind_eval, when_log_eval. cbn [fst snd].
    match goal with
    | |- context [consumer_trees qm aw awId d m gs ?acc1 ?w1] =>
        destruct (IH acc1 w1) as [H1 H2]
    end.
    rewrite H1, H2, <- app_assoc. auto.
Qed.

(** A compute demand above 2^63 is reset to [MaxInt], the reset value is
    the demand of every resource type of the tree that only the "cpu"
    block recognizes, and the conversion error is returned next to the
    demands. *)
Lemma clamped_demand_is_kept d l t :
  float64_gt (MilliCPU d) (float64_of_int MaxInt) = true ->
  t ∈ l ->
  Contains (ToLower t) "cpu" = true ->
  Contains (ToLower t) "memory" = false ->
  Contains (ToLower t) "gpu" = false ->
  (getQuotaTreeResourceTypesDemands d l).1 !! t = Some MaxInt
  /\ is_Some (getQuotaTreeResourceTypesDemands d l).2.
Proof.
  intros Hgt Hin Hcpu Hmem Hgpu.
  assert (convertFloat64Demand (MilliCPU d)
          = (MaxInt,
             Some (Sprintf "demand %f is larger than Max Quota Management Backend size, resetting demand to %d"
                           [ArgFloat (MilliCPU d); ArgInt MaxInt]))) as Hconv
    by (unfold convertFloat64Demand; rewrite Hgt; reflexivity).
  split.
  - rewrite demands_lookup, decide_True by exact Hin.
    unfold demand_for. rewrite Hgpu, Hmem, Hcpu, Hconv. reflexivity.
  - apply (demands_error d l t Hin). left. rewrite Hconv. eauto.
Qed.

(** C4 fails at 2^63.  [float64(MaxInt)] is 2^63, so the demand 2^63, a
    valid [float64] whose value is [MaxInt + 1], is not greater: it is
    neither reset to [MaxInt] nor reported.  It is converted to [int],
    which cannot represent it, and that result goes into the demands of the
    tree without an error. *)
Theorem convertFloat64Demand_misses_two63 :
  valid_float64 two63 = true
  /\ integer_part two63 = Some (MaxInt + 1)
  /\ convertFloat64Demand two63 = (int_of_unrepresentable two63, None)
  /\ getQuotaTreeResourceTypesDemands
       (mkResource two63 (S754_zero false) 0) ["cpu"]
     = ({["cpu" := int_of_unrepresentable two63]}, None).
Proof.
  assert (convertFloat64Demand two63 = (int_of_unrepresentable two63, None)) as Hc.
  { unfold convertFloat64Demand. rewrite float64_of_MaxInt. reflexivity. }
  split; [reflexivity |]. split; [reflexivity |]. split; [exact Hc |].
  unfold getQuotaTreeResourceTypesDemands, demand_step, demand_rule.
  cbn [fold_left MilliCPU Memory GPU]. rewrite Hc.
  reflexivity.
Qed.

(** *** No backend *)

(** C9.  Without a backend ([quotaManagerBackend] nil), [Fits] returns
    [(false, nil, "No quota manager backend exists")] for every job, demand
    and proposed preemptions; it makes no call, logs no error or warning and
    leaves the manager as it is. *)
Theorem Fits_without_backend lister preemption (r : R) done aw
    (awResDemands : Resource) (proposedPreemptions : list AppWrapper) :
  let qm := mkQuotaManager (B:=B) lister preemption None r done in
  Fits qm aw awResDemands proposedPreemptions
  = mkRun (false, [], "No quota manager backend exists") qm [] [].
Proof. reflexivity. Qed.

(** *** The maintenance gate *)


(** *** Release *)

(** C8.  With a backend attached and an id that can be formed, [Release]
    deallocates the consumer from the forest and then removes the consumer
    from the backend, whatever the deallocation returned and whether or not
    the job was ever admitted; it makes no other call, and it returns what
    the deallocation returned, whatever the removal answers. *)
Theorem Release_deallocates_then_removes qm (b : B) aw :
  quotaManagerBackend qm = Some b ->
  CreateId (aw_Namespace aw) (aw_Name aw) <> "" ->
  let awId := CreateId (aw_Namespace aw) (aw_Name aw) in
  let dealloc := DeAllocateForest QuotaManagerForestName awId b in
  let removal := RemoveConsumer awId dealloc.2 in
  let r := Release qm aw in
  made r = [CallDeAllocateForest QuotaManagerForestName awId; CallRemoveConsumer awId]
  /\ result r = dealloc.1
  /\ quotaManagerBackend (manager r) = Some removal.2.
Proof.
  intros Hb Hid awId dealloc removal r. subst r. unfold Release. rewrite Hb.
  rewrite made_run, result_run. unfold run, Release_with_backend. fold awId.
  destruct (String.length awId <=? 0)%nat eqn:Hlen.
  { exfalso. apply Hid. fold awId. destruct awId; [reflexivity | discriminate]. }
  repeat (rewrite ?bind_eval, ?on_backend_eval, ?when_log_eval;
          cbn [fst snd backend plan calls klog]).
  fold dealloc. fold removal.
  destruct removal as [[success err] b2].
  repeat (rewrite ?bind_eval, ?on_backend_eval, ?when_log_eval;
          cbn [fst snd backend plan calls klog manager quotaManagerBackend]).
  unfold ret; cbn. auto.
Qed.

End Properties.

(** *** On the small forest *)

#[local] Existing Instance forest_collaborators.
#[local] Existing Instance plain_runtime.


Lemma plain_runtime_keys : keys_once.
Proof. intros labels. reflexivity. Qed.



Lemma Release_deallocates_then_removes_witness :
  let r := Release (manager_AB Normal true) job_AB in
  made r = [CallDeAllocateForest QuotaManagerForestName "ns/job";
            CallRemoveConsumer "ns/job"]
  /\ result r = false
  /\ quotaManagerBackend (manager r) = Some (forest_AB Normal).
Proof.
  assert (CreateId (aw_Namespace job_AB) (aw_Name job_AB) <> "") as Hid
    by (vm_compute; discriminate).
  exact (Release_deallocates_then_removes (manager_AB Normal true) (forest_AB Normal)
           job_AB eq_refl Hid).
Defined.

(** A compute demand of 2^64 millicores: the request that [buildRequest]
    makes carries [MaxInt] for "cpu", and the overflow is only logged. *)
Example overflowing_demand_is_clamped_and_submitted :
  let d := mkResource (float64_of_int (2 ^ 64)) (float64_of_int 2000000000) 1 in
  let r := buildRequest (manager_AB Normal true) job_AB d
                        (mkWorld (forest_AB Normal) false [] []) in
  r.1 = inr (mkJConsumer "Consumer"
               (mkJConsumerSpec "ns/job"
                  [mkJConsumerTreeSpec "ns/job" "A" "group1"
                     {["cpu" := MaxInt; "memory" := 2000]} 0 0 false;
                   mkJConsumerTreeSpec "ns/job" "B" "group2"
                     {["gpu" := 1]} 0 0 false]),
             None)
  /\ klog r.2 = ["[buildRequest] Failure building quota resource demands for AppWrapper %s/%s, err=%#v"]
  /\ result (Fits (manager_AB Normal true) job_AB d []) = (true, [], "").
Proof. vm_compute. repeat split; reflexivity. Qed.

(** During initialization a backend in Maintenance mode does not stop the
    request: the job is admitted by the forest. *)
Example Fits_during_initialization :
  let r := Fits (manager_AB Maintenance false) job_AB small_demand [] in
  result r = (true, [], "")
  /\ made r = [CallGetMode; CallIsResplanChanged; CallGetTreeNames;
               CallGetTreeCache "A"; CallGetTreeCache "B";
               CallAddConsumer "ns/job";
               CallAllocateForest QuotaManagerForestName "ns/job"].
Proof. vm_compute. split; reflexivity. Qed.

End QuotaManagerFacts.

(** ** The ledger: further properties *)

Module LedgerFacts.
Import Api ApiSpec ApiFacts LedgerSpec.

#[local] Arguments Sub : simpl never.
#[local] Arguments Add : simpl never.








(** The tracked tasks after an insertion under a fresh key and after a
    deletion. *)
Lemma tracked_insert ni k t (tasks : gmap TaskID TaskInfo) :
  Tasks ni !! k = None ->
  (map_to_list (<[k := t]> (Tasks ni))).*2 ≡ₚ t :: tracked ni.
Proof.
  intros Hk. unfold tracked. rewrite map_to_list_insert by exact Hk. reflexivity.
Qed.


(** *** The task map after each method *)

Lemma Tasks_AddTask p ni t :
  Tasks (post (AddTask p ni t)) =
  match Tasks ni !! PodKey (task_Pod t) with
  | Some _ => Tasks ni
  | None => <[PodKey (task_Pod t) := t]> (Tasks ni)
  end.
Proof.
  destruct (Tasks ni !! PodKey (task_Pod t)) as [old|] eqn:Hk.
  - rewrite AddTask_tracked by eauto. reflexivity.
  - destruct (Node ni) as [n|] eqn:Hn.
    + rewrite (AddTask_bound p ni t n Hk Hn). reflexivity.
    + rewrite (AddTask_unbound p ni t Hk Hn). reflexivity.
Qed.

Lemma Tasks_RemoveTask p ni t :
  Tasks (post (RemoveTask p ni t)) = delete (PodKey (task_Pod t)) (Tasks ni).
Proof.
  destruct (Tasks ni !! PodKey (task_Pod t)) as [old|] eqn:Hk.
  - destruct (Node ni) as [n|] eqn:Hn.
    + rewrite (RemoveTask_bound p ni t old n Hk Hn). reflexivity.
    + rewrite (RemoveTask_unbound p ni t old Hk Hn). reflexivity.
  - rewrite RemoveTask_untracked by exact Hk. simpl. symmetry.
    apply delete_id, Hk.
Qed.

Lemma PipelineTask_bound p ni t n :
  Tasks ni !! PodKey (task_Pod t) = None -> Node ni = Some n ->
  PipelineTask p ni t =
  mkOutcome None
    (set_tasks (set_pools ni (Sub p (Releasing ni) (Resreq t)).1 (Idle ni)
                          (Add (Used ni) (Resreq t)))
               (<[PodKey (task_Pod t) := t]> (Tasks ni)))
    (warn "[PipelineTask] Node release subtraction err="
          (Sub p (Releasing ni) (Resreq t)).2).
Proof.
  intros Hk Hn. unfold PipelineTask, Clone. rewrite Hk, Hn.
  destruct (Sub p (Releasing ni) (Resreq t)) as [rel e]. reflexivity.
Qed.

Lemma PipelineTask_unbound p ni t :
  Tasks ni !! PodKey (task_Pod t) = None -> Node ni = None ->
  PipelineTask p ni t =
  mkOutcome None (set_tasks ni (<[PodKey (task_Pod t) := t]> (Tasks ni))) [].
Proof. intros Hk Hn. unfold PipelineTask, Clone. rewrite Hk, Hn. reflexivity. Qed.

Lemma PipelineTask_tracked p ni t :
  is_Some (Tasks ni !! PodKey (task_Pod t)) ->
  PipelineTask p ni t = mkOutcome (Some (already_on_node t ni)) ni [].
Proof. intros [old Hk]. unfold PipelineTask. rewrite Hk. reflexivity. Qed.

Lemma Tasks_PipelineTask p ni t :
  Tasks (post (PipelineTask p ni t)) =
  match Tasks ni !! PodKey (task_Pod t) with
  | Some _ => Tasks ni
  | None => <[PodKey (task_Pod t) := t]> (Tasks ni)
  end.
Proof.
  destruct (Tasks ni !! PodKey (task_Pod t)) as [old|] eqn:Hk.
  - rewrite PipelineTask_tracked by eauto. reflexivity.
  - destruct (Node ni) as [n|] eqn:Hn.
    + rewrite (PipelineTask_bound p ni t n Hk Hn). reflexivity.
    + rewrite (PipelineTask_unbound p ni t Hk Hn). reflexivity.
Qed.

Lemma Tasks_UpdateTask p ni t :
  Tasks (post (UpdateTask p ni t)) =
  match Tasks ni !! PodKey (task_Pod t) with
  | Some _ => <[PodKey (task_Pod t) := t]> (Tasks ni)
  | None => Tasks ni
  end.
Proof.
  unfold UpdateTask.
  destruct (Tasks ni !! PodKey (task_Pod t)) as [old|] eqn:Hk.
  - assert (err (RemoveTask p ni t) = None) as ->.
    { destruct (Node ni) as [n|] eqn:Hn.
      - rewrite (RemoveTask_bound p ni t old n Hk Hn). reflexivity.
      - rewrite (RemoveTask_unbound p ni t old Hk Hn). reflexivity. }
    cbn [post]. rewrite Tasks_AddTask, Tasks_RemoveTask, lookup_delete_eq.
    apply insert_delete_eq.
  - rewrite RemoveTask_untracked by exact Hk. reflexivity.
Qed.

Lemma Tasks_SetNode p ni node : Tasks (SetNode p ni node).1 = Tasks ni.
Proof. reflexivity. Qed.

(** *** Tasks are stored under the key of their pod *)

Lemma keyed_insert ni t :
  keyed ni ->
  forall k t', <[PodKey (task_Pod t) := t]> (Tasks ni) !! k = Some t' ->
               PodKey (task_Pod t') = k.
Proof.
  intros Hkeyed k t'. rewrite lookup_insert.
  destruct (decide (PodKey (task_Pod t) = k)) as [<- | Hne].
  - intros [= <-]. reflexivity.
  - apply Hkeyed.
Qed.

Lemma keyed_step p ni s : keyed ni -> keyed (step p ni s).1.
Proof.
  intros Hkeyed k t'. destruct s as [t|t|t|t|n]; cbn [step fst].
  - rewrite Tasks_AddTask. destruct (Tasks ni !! PodKey (task_Pod t));
      [apply Hkeyed | apply keyed_insert, Hkeyed].
  - rewrite Tasks_RemoveTask. intros Hl.
    apply lookup_delete_Some in Hl as [_ Hl]. apply Hkeyed, Hl.
  - rewrite Tasks_UpdateTask. destruct (Tasks ni !! PodKey (task_Pod t));
      [apply keyed_insert, Hkeyed | apply Hkeyed].
  - rewrite Tasks_PipelineTask. destruct (Tasks ni !! PodKey (task_Pod t));
      [apply Hkeyed | apply keyed_insert, Hkeyed].
  - rewrite Tasks_SetNode. apply Hkeyed.
Qed.

Lemma keyed_NewNodeInfo on : keyed (NewNodeInfo on).
Proof. intros k t. destruct on; simpl; rewrite lookup_empty; discriminate. Qed.

(** X1.  In every ledger reached from a fresh one by [AddTask],
    [RemoveTask], [UpdateTask], [PipelineTask] and [SetNode] calls, each
    tracked task is stored under the key of its own pod. *)
Theorem tasks_stored_under_their_key p (on : option v1Node) (ss : list Step) :
  keyed (steps p (NewNodeInfo on) ss).1.
Proof.
  generalize (keyed_NewNodeInfo on). generalize (NewNodeInfo on).
  induction ss as [|s ss IH]; intros ni Hkeyed; [exact Hkeyed |].
  simpl. pose proof (keyed_step p ni s Hkeyed) as H1.
  destruct (step p ni s) as [ni1 w1]. specialize (IH ni1 H1).
  destruct (steps p ni1 ss) as [ni2 w2]. exact IH.
Qed.

(** *** A ledger without a node *)

Lemma inert_step p ni s :
  inert ni -> is_SetNode s = false ->
  inert (step p ni s).1 /\ (step p ni s).2 = [].
Proof.
  intros (Hn & Hi & Hu & Hr) Hs.
  assert (forall tasks, inert (set_tasks ni tasks)) as Hset
    by (intros tasks; repeat split; assumption).
  destruct s as [t|t|t|t|n]; try discriminate; cbn [step fst snd].
  - destruct (Tasks ni !! PodKey (task_Pod t)) as [old|] eqn:Hk.
    + rewrite AddTask_tracked by eauto. repeat split; assumption.
    + rewrite (AddTask_unbound p ni t Hk Hn). split; [apply Hset | reflexivity].
  - destruct (Tasks ni !! PodKey (task_Pod t)) as [old|] eqn:Hk.
    + rewrite (RemoveTask_unbound p ni t old Hk Hn). split; [apply Hset | reflexivity].
    + rewrite RemoveTask_untracked by exact Hk. repeat split; assumption.
  - unfold UpdateTask.
    destruct (Tasks ni !! PodKey (task_Pod t)) as [old|] eqn:Hk.
    + rewrite (RemoveTask_unbound p ni t old Hk Hn). cbn [err post log].
      rewrite AddTask_unbound by first [apply lookup_delete_eq | exact Hn].
      split; [apply (Hset _) | reflexivity].
    + rewrite RemoveTask_untracked by exact Hk. repeat split; assumption.
  - destruct (Tasks ni !! PodKey (task_Pod t)) as [old|] eqn:Hk.
    + rewrite PipelineTask_tracked by eauto. repeat split; assumption.
    + rewrite (PipelineTask_unbound p ni t Hk Hn). split; [apply Hset | reflexivity].
Qed.

(** X2.  A ledger created without a node stays inert until [SetNode]:
    whatever tasks are added, pipelined, updated or removed, it has no
    node, its Idle, Used and Releasing stay empty, and no warning is
    logged. *)
Theorem unbound_ledger_is_inert p (ss : list Step) :
  forallb (fun s => negb (is_SetNode s)) ss = true ->
  inert (steps p (NewNodeInfo None) ss).1 /\ (steps p (NewNodeInfo None) ss).2 = [].
Proof.
  assert (inert (NewNodeInfo None)) as H0 by (repeat split).
  revert H0. generalize (NewNodeInfo None).
  induction ss as [|s ss IH]; intros ni Hi Hss; [split; [exact Hi | reflexivity] |].
  simpl in Hss. apply andb_true_iff in Hss as [Hs Hss].
  apply negb_true_iff in Hs.
  destruct (inert_step p ni s Hi Hs) as [H1 Hw1]. simpl.
  destruct (step p ni s) as [ni1 w1]. cbn [fst snd] in *.
  destruct (IH ni1 H1 Hss) as [H2 Hw2].
  destruct (steps p ni1 ss) as [ni2 w2]. cbn [fst snd] in *.
  subst. split; [exact H2 | reflexivity].
Qed.

Lemma unbound_ledger_is_inert_witness :
  let ss := [StepAddTask task1; StepPipelineTask task_big;
             StepUpdateTask task1_releasing; StepRemoveTask task1] in
  inert (steps ClampToZero (NewNodeInfo None) ss).1
  /\ (steps ClampToZero (NewNodeInfo None) ss).2 = [].
Proof.
  apply (unbound_ledger_is_inert ClampToZero
           [StepAddTask task1; StepPipelineTask task_big;
            StepUpdateTask task1_releasing; StepRemoveTask task1]).
  reflexivity.
Defined.

(** *** What Used and Releasing account for *)


















(** *** Clone *)




















Lemma CloneNodeInfo_in_order p ni :
  CloneNodeInfo p ni = Clone_in_order p ni (tracked ni).
Proof. reflexivity. Qed.








(** *** UpdateTask *)

(** X7.  [UpdateTask] fails exactly when the task is not tracked, with the
    error of [RemoveTask] and the ledger left as it was; for a tracked task
    it never fails: the removal frees the key before [AddTask] looks it up. *)
Theorem UpdateTask_fails_only_when_untracked p ni t :
  match Tasks ni !! PodKey (task_Pod t) with
  | Some _ => err (UpdateTask p ni t) = None
  | None => UpdateTask p ni t = mkOutcome (Some (not_on_host t ni)) ni []
  end.
Proof.
  unfold UpdateTask. destruct (Tasks ni !! PodKey (task_Pod t)) as [old|] eqn:Hk.
  - assert (err (RemoveTask p ni t) = None) as ->.
    { destruct (Node ni) as [n|] eqn:Hn.
      - rewrite (RemoveTask_bound p ni t old n Hk Hn). reflexivity.
      - rewrite (RemoveTask_unbound p ni t old Hk Hn). reflexivity. }
    cbn [err].
    assert (Tasks (post (RemoveTask p ni t)) !! PodKey (task_Pod t) = None) as Hfree
      by (rewrite Tasks_RemoveTask; apply lookup_delete_eq).
    destruct (Node (post (RemoveTask p ni t))) as [n|] eqn:Hn.
    + rewrite (AddTask_bound p _ t n Hfree Hn). reflexivity.
    + rewrite (AddTask_unbound p _ t Hfree Hn). reflexivity.
  - rewrite RemoveTask_untracked by exact Hk. reflexivity.
Qed.



(** *** PipelineTask beside AddTask and RemoveTask *)

(** X9.  [PipelineTask] and [AddTask] accept and refuse the same tasks with
    the same error, and leave the same task map, the same Used and the same
    node fields; they differ only in Idle and Releasing. *)
Theorem PipelineTask_agrees_with_AddTask p ni t :
  err (PipelineTask p ni t) = err (AddTask p ni t)
  /\ Tasks (post (PipelineTask p ni t)) = Tasks (post (AddTask p ni t))
  /\ Used (post (PipelineTask p ni t)) = Used (post (AddTask p ni t))
  /\ same_node (post (PipelineTask p ni t)) (post (AddTask p ni t)).
Proof.
  destruct (Tasks ni !! PodKey (task_Pod t)) as [old|] eqn:Hk.
  - rewrite PipelineTask_tracked, AddTask_tracked by eauto. repeat split.
  - destruct (Node ni) as [n|] eqn:Hn.
    + rewrite (PipelineTask_bound p ni t n Hk Hn), (AddTask_bound p ni t n Hk Hn).
      repeat split.
    + rewrite (PipelineTask_unbound p ni t Hk Hn), (AddTask_unbound p ni t Hk Hn).
      repeat split.
Qed.



(** *** Binding late *)








End LedgerFacts.

(** ** The quota manager: further properties *)

Module AdmissionFacts.
Import QuotaManager QuotaManagerSpec QuotaManagerInit QuotaManagerFacts AdmissionSpec.

Section Properties.

Context {B R CI : Type} `{!Collaborators B R CI} `{!GoRuntime}.

Implicit Types (qm : @QuotaManager B R) (aw : AppWrapper) (w : @World B R).

#[local] Abbreviation M := (@QuotaManager.M B R) (only parsing).
#[local] Abbreviation quiet := (@AdmissionSpec.quiet B R _).

(** *** The conversions of a demand to [int] *)

Lemma MaxInt_value : MaxInt = 9223372036854775807.
Proof. reflexivity. Qed.

(** X12.  [convertInt64Demand] never clamps and never reports an error:
    on a 64-bit target [MaxInt] is the largest [int64], so every [int64]
    demand is returned as it is. *)
Theorem convertInt64Demand_keeps_every_int64 (v : Z) :
  is_int64 v -> convertInt64Demand v = (v, None).
Proof.
  unfold is_int64, convertInt64Demand, int_of_int64, uint_bits. intros Hv.
  rewrite MaxInt_value.
  change (2 ^ 63) with 9223372036854775808 in Hv.
  change (2 ^ (64 - 1)) with 9223372036854775808.
  change (2 ^ 64) with 18446744073709551616.
  destruct (Z.ltb_spec 9223372036854775807 v) as [Hlt | _]; [lia |].
  rewrite Z.mod_small by lia. f_equal. lia.
Qed.

(** X13.  What [convertFloat64Demand] returns for a finite demand with
    integer part [i]: the clamp to [MaxInt] with an error when [i] exceeds
    2^63, [i] itself (the demand truncated towards zero) without error when
    [int] can hold it, and otherwise, for 2^63 and below the smallest
    [int], whatever the conversion to [int] yields, without error. *)
Theorem convertFloat64Demand_of_finite (f : float64) (i : Z) :
  valid_float64 f = true ->
  integer_part f = Some i ->
  convertFloat64Demand f =
  if MaxInt + 1 <? i
  then (MaxInt,
        Some (Sprintf "demand %f is larger than Max Quota Management Backend size, resetting demand to %d"
                      [ArgFloat f; ArgInt MaxInt]))
  else if (MinInt <=? i) && (i <=? MaxInt) then (i, None)
  else (int_of_unrepresentable (Trunc f), None).
Proof.
  intros Hv Hi. pose proof (gt_MaxInt_spec f Hv) as Hgt. unfold convertFloat64Demand.
  assert (float64_gt f (float64_of_int MaxInt) = (MaxInt + 1 <? i)) as ->.
  { apply eq_true_iff_eq. rewrite Hgt, Z.ltb_lt.
    destruct f as [s|s| |s m e]; try discriminate.
    - injection Hi as <-. rewrite MaxInt_value. split; [tauto | lia].
    - simpl in Hi. injection Hi as <-.
      pose proof (proj2 (Z.shiftl_nonneg (Zpos m) e) ltac:(lia)) as Hnn.
      destruct s; simpl; [| tauto].
      rewrite MaxInt_value. split; [tauto | lia]. }
  destruct (MaxInt + 1 <? i); [reflexivity |].
  unfold int_of_float64. rewrite Trunc_integer_part, Hi by exact Hv.
  destruct ((MinInt <=? i) && (i <=? MaxInt)); reflexivity.
Qed.

(** X14.  What [convertFloat64Demand] returns for a demand that is not
    finite: an infinite positive demand is clamped to [MaxInt] with an
    error; NaN and an infinite negative demand pass the comparison and are
    converted to [int] without any error. *)
Theorem convertFloat64Demand_of_non_finite (f : float64) :
  integer_part f = None ->
  convertFloat64Demand f =
  match f with
  | S754_infinity false =>
      (MaxInt,
       Some (Sprintf "demand %f is larger than Max Quota Management Backend size, resetting demand to %d"
                     [ArgFloat f; ArgInt MaxInt]))
  | _ => (int_of_unrepresentable f, None)
  end.
Proof.
  unfold convertFloat64Demand. rewrite float64_of_MaxInt.
  destruct f as [s|s| |s m e]; try discriminate; intros _.
  - destruct s; reflexivity.
  - reflexivity.
Qed.

(** *** The demands of a tree *)

(** X15.  The demand [getQuotaTreeResourceTypesDemands] records for a
    resource type: none for a name that is not among the tree's types or
    that has none of "cpu", "memory" and "gpu" in it; otherwise the
    conversion of the last block the lower-cased name enters, so "gpu"
    wins over "memory" and "memory" over "cpu". *)
Theorem demand_of_a_resource_type (d : Resource) (l : list string) (t : string) :
  (getQuotaTreeResourceTypesDemands d l).1 !! t =
  if decide (t ∈ l) then fst <$> demand_for d t else None.
Proof. apply demands_lookup. Qed.

Lemma demand_rule_processed substr conv t acc :
  length (processedResourceTypes (demand_rule substr conv t acc))
  = (length (processedResourceTypes acc)
     + if Contains (ToLower t) substr then 1 else 0)%nat.
Proof.
  unfold demand_rule. destruct (Contains (ToLower t) substr).
  - destruct conv as [v e]. simpl. rewrite length_app. reflexivity.
  - lia.
Qed.

Lemma demand_step_processed d acc t :
  length (processedResourceTypes (demand_step d acc t))
  = (length (processedResourceTypes acc) + blocks_entered t)%nat.
Proof.
  unfold demand_step, blocks_entered. rewrite !demand_rule_processed. lia.
Qed.

Lemma demands_fold_processed d l : forall acc,
  length (processedResourceTypes (fold_left (demand_step d) l acc))
  = (length (processedResourceTypes acc) + blocks_entered_by l)%nat.
Proof.
  induction l as [|t l IH]; intros acc; simpl; [lia |].
  rewrite IH, demand_step_processed. lia.
Qed.

Lemma next_error_None (err : option string) t (converErr : option string) :
  next_error err t converErr = None <-> err = None /\ converErr = None.
Proof.
  unfold next_error. destruct converErr, err; split; try tauto; try discriminate.
  all: intros [? ?]; discriminate.
Qed.

Lemma demand_rule_no_err substr conv t acc :
  demands_err (demand_rule substr conv t acc) = None
  <-> demands_err acc = None
      /\ ~ (Contains (ToLower t) substr = true /\ is_Some conv.2).
Proof.
  unfold demand_rule. destruct (Contains (ToLower t) substr).
  - destruct conv as [v e]. simpl. rewrite next_error_None.
    split; intros [H1 H2]; (split; [exact H1 |]).
    + subst e. intros [_ [? [=]]].
    + destruct e; [exfalso; apply H2; eauto | reflexivity].
  - split; [intros ->; split; [reflexivity | intros [[=] _]] | tauto].
Qed.

Lemma demand_step_no_err d acc t :
  demands_err (demand_step d acc t) = None
  <-> demands_err acc = None /\ ~ conversion_fails d t.
Proof.
  unfold demand_step, conversion_fails. rewrite !demand_rule_no_err. tauto.
Qed.

Lemma demands_fold_no_err d l : forall acc,
  demands_err (fold_left (demand_step d) l acc) = None
  <-> demands_err acc = None /\ forall t, t ∈ l -> ~ conversion_fails d t.
Proof.
  induction l as [|x l IH]; intros acc; simpl.
  - split; [intros ->; split; [reflexivity |] | tauto].
    intros t Ht. apply elem_of_nil in Ht. contradiction.
  - rewrite IH, demand_step_no_err. split.
    + intros [[H1 H2] H3]. split; [exact H1 |]. intros t Ht.
      apply elem_of_cons in Ht as [-> | Ht]; [exact H2 | apply H3, Ht].
    + intros [H1 H2]. repeat split; [exact H1 | |].
      * apply H2. left.
      * intros t Ht. apply H2. right. exact Ht.
Qed.

(** X16.  [getQuotaTreeResourceTypesDemands] returns no error exactly
    when no conversion it made failed and the blocks entered are at least
    as many as the tree has resource types.  The count is of blocks, not of
    types: a type that enters two blocks makes up for one that enters
    none. *)
Theorem demands_error_iff (d : Resource) (l : list string) :
  (getQuotaTreeResourceTypesDemands d l).2 = None
  <-> (forall t, t ∈ l -> ~ conversion_fails d t)
      /\ (length l <= blocks_entered_by l)%nat.
Proof.
  unfold getQuotaTreeResourceTypesDemands. cbn [snd].
  rewrite demands_fold_processed. cbn [processedResourceTypes length Nat.add].
  destruct (Nat.ltb_spec (blocks_entered_by l) (length l)) as [Hlt | Hge].
  - split.
    + destruct (demands_err _); discriminate.
    + intros [_ Hle]. lia.
  - rewrite demands_fold_no_err. cbn [demands_err]. split.
    + intros [_ Hok]. split; assumption.
    + intros [Hok _]. split; [reflexivity | exact Hok].
Qed.

(** *** The designations of a job *)

Lemma designated_cons trees (labels : gmap string string) k keys :
  designated trees labels (k :: keys)
  = if isValidQuota (mkQuotaGroup k (default "" (labels !! k))) trees
    then mkQuotaGroup k (default "" (labels !! k)) :: designated trees labels keys
    else designated trees labels keys.
Proof.
  unfold designated. cbn [List.filter].
  destruct (isValidQuota _ trees); reflexivity.
Qed.

Lemma designations_map trees labels keys : forall groups m w t,
  (designations trees labels keys groups m w).1.2 !! t
  = if decide (t ∈ GroupContext <$> designated trees labels keys)
    then Some (GetResourceNames t (backend w))
    else m !! t.
Proof.
  induction keys as [|k keys IH]; intros groups m w t.
  - rewrite decide_False by apply not_elem_of_nil. reflexivity.
  - cbn [designations]. rewrite designated_cons.
    destruct (isValidQuota (mkQuotaGroup k (default "" (labels !! k))) trees).
    + rewrite bind_eval, on_backend_eval. cbn [fst snd GroupContext].
      rewrite IH. cbn [backend]. rewrite fmap_cons. cbn [GroupContext].
      destruct (decide (t ∈ GroupContext <$> designated trees labels keys))
        as [Hin | Hnin].
      * rewrite decide_True by (right; exact Hin). reflexivity.
      * destruct (decide (k = t)) as [-> | Hne].
        -- rewrite decide_True by left. apply lookup_insert_eq.
        -- rewrite decide_False.
           ++ apply lookup_insert_ne, Hne.
           ++ intros [-> | Hin]%elem_of_cons; [congruence | contradiction].
    + apply IH.
Qed.

Lemma all_labelled (labels : gmap string string) (trees : list string) :
  missing_labels labels trees = [] <-> forall t, t ∈ trees -> is_Some (labels !! t).
Proof.
  unfold missing_labels. split.
  - intros Hnil t Ht. destruct (labels !! t) as [v|] eqn:Hl; [eauto |].
    assert (t ∈ filter (fun t => labels !! t = None) trees) as Hin
      by (apply list_elem_of_filter; auto).
    rewrite Hnil in Hin. apply elem_of_nil in Hin. contradiction.
  - intros Hall. destruct (filter _ trees) as [|t l] eqn:E; [reflexivity |].
    assert (t ∈ filter (fun t => labels !! t = None) trees) as Hin
      by (rewrite E; left).
    apply list_elem_of_filter in Hin as [Hnone Ht].
    destruct (Hall t Ht) as [v Hv]. congruence.
Qed.

Lemma designated_all trees (labels : gmap string string) :
  keys_once -> NoDup trees ->
  missing_labels labels trees = [] ->
  GroupContext <$> designated trees labels (MapKeys labels) ≡ₚ trees.
Proof.
  intros Hkeys Hnd Hall. rewrite all_labelled in Hall.
  apply NoDup_Permutation; [apply designated_NoDup, MapKeys_NoDup, Hkeys | exact Hnd |].
  intros t. rewrite designated_contexts, MapKeys_elem_of by exact Hkeys.
  split; [tauto | auto].
Qed.

Lemma designated_labels trees (labels : gmap string string) :
  keys_once ->
  Forall (fun g => labels !! GroupContext g = Some (GroupId g))
         (designated trees labels (MapKeys labels)).
Proof.
  intros Hkeys. apply Forall_forall. intros g Hg. unfold designated in Hg.
  apply list_elem_of_fmap in Hg as [k [-> Hk]]. simpl.
  apply list_elem_of_In, filter_In in Hk as [Hk _]. apply list_elem_of_In in Hk.
  apply MapKeys_elem_of in Hk as [v Hv]; [| exact Hkeys]. rewrite Hv. reflexivity.
Qed.

Lemma getQuotaDesignation_eval aw w :
  let trees := GetTreeNames (backend w) in
  let groups := designated trees (aw_Labels aw) (MapKeys (aw_Labels aw)) in
  backend (getQuotaDesignation aw w).2 = backend w
  /\ plan (getQuotaDesignation aw w).2 = plan w
  /\ if (length trees <=? 0)%nat
     then (getQuotaDesignation aw w).1 = ([], ∅, None)
     else (getQuotaDesignation aw w).1.1.1 = groups
          /\ (forall t, (getQuotaDesignation aw w).1.1.2 !! t
                        = if decide (t ∈ GroupContext <$> groups)
                          then Some (GetResourceNames t (backend w)) else None)
          /\ ((getQuotaDesignation aw w).1.2 = None
              <-> (length trees <= length groups)%nat).
Proof.
  intros trees groups. unfold getQuotaDesignation.
  rewrite bind_eval, on_backend_eval. cbn [fst snd]. fold trees.
  destruct (length trees <=? 0)%nat; [repeat split |].
  rewrite bind_eval.
  match goal with
  | |- context [designations trees ?lbl ?ks ?g ?m ?w1] =>
      pose proof (designations_groups trees lbl ks g m w1) as Hg;
      pose proof (designations_map trees lbl ks g m w1) as Hm;
      pose proof (designations_world trees lbl ks g m w1) as [Hb _];
      assert (plan (designations trees lbl ks g m w1).2 = plan w1) as Hp;
      [| destruct (designations trees lbl ks g m w1) as [[gs tm] w2]]
  end.
  { clear. generalize (@nil QuotaGroup) (∅ : gmap string (list string)).
    match goal with |- forall g m, plan (designations _ _ _ _ _ ?w1).2 = _ =>
      generalize w1 end.
    induction (MapKeys (aw_Labels aw)) as [|k keys IH]; intros w1 g m; [reflexivity |].
    cbn [designations].
    destruct (isValidQuota _ trees); [| apply IH].
    rewrite bind_eval, on_backend_eval. cbn [fst snd]. rewrite IH. reflexivity. }
  cbn [fst snd app backend plan] in Hg, Hm, Hb, Hp |- *. fold groups in Hg, Hm. subst gs.
  match goal with
  | |- context [(?a <? ?b)%nat] => destruct (Nat.ltb_spec a b) as [Hlt | Hge]
  end.
  - unfold ret. cbn [fst snd].
    repeat split; try assumption; [discriminate | lia].
  - rewrite bind_eval, when_log_eval. unfold ret. cbn [fst snd backend plan].
    repeat split; try assumption. intros _. exact Hge.
Qed.

(** X17.  When the backend lists each tree once, [getQuotaDesignation]
    returns no error exactly when the job has a label for every tree of
    the backend; in particular it never fails when the backend has no tree,
    and labels that name no tree never make it fail. *)
Theorem getQuotaDesignation_succeeds_iff aw w :
  keys_once ->
  NoDup (GetTreeNames (backend w)) ->
  (getQuotaDesignation aw w).1.2 = None
  <-> missing_labels (aw_Labels aw) (GetTreeNames (backend w)) = [].
Proof.
  intros Hkeys Hnd.
  destruct (getQuotaDesignation_eval aw w) as (_ & _ & Heval).
  set (trees := GetTreeNames (backend w)) in *.
  destruct (Nat.leb_spec (length trees) 0) as [Hz | Hpos].
  - rewrite Heval. destruct trees; [| simpl in Hz; lia]. split; reflexivity.
  - destruct Heval as (_ & _ & ->). split.
    + intros Hle.
      destruct (missing_labels (aw_Labels aw) trees) as [|t l] eqn:E; [reflexivity |].
      assert (t ∈ missing_labels (aw_Labels aw) trees) as Hin by (rewrite E; left).
      apply list_elem_of_filter in Hin as [Hnone Ht].
      pose proof (designated_fewer trees (aw_Labels aw) t Hkeys Ht Hnone). lia.
    + intros Hall.
      rewrite <- (designated_all trees (aw_Labels aw) Hkeys Hnd Hall) at 1.
      rewrite length_fmap. lia.
Qed.

(** X18.  What [getQuotaDesignation] returns for a job that has a label
    for every tree (the backend listing each tree once): one designation
    for each tree, whose group is the value of the label, and for each tree
    the resource names the backend has for it; the backend and the resource
    plans are left as they were. *)
Theorem getQuotaDesignation_designates_every_tree aw w :
  keys_once ->
  NoDup (GetTreeNames (backend w)) ->
  missing_labels (aw_Labels aw) (GetTreeNames (backend w)) = [] ->
  GroupContext <$> (getQuotaDesignation aw w).1.1.1 ≡ₚ GetTreeNames (backend w)
  /\ Forall (fun g => aw_Labels aw !! GroupContext g = Some (GroupId g))
            (getQuotaDesignation aw w).1.1.1
  /\ (forall t, t ∈ GetTreeNames (backend w) ->
                (getQuotaDesignation aw w).1.1.2 !! t
                = Some (GetResourceNames t (backend w)))
  /\ backend (getQuotaDesignation aw w).2 = backend w
  /\ plan (getQuotaDesignation aw w).2 = plan w.
Proof.
  intros Hkeys Hnd Hall.
  destruct (getQuotaDesignation_eval aw w) as (Hb & Hp & Heval).
  set (trees := GetTreeNames (backend w)) in *.
  pose proof (designated_all trees (aw_Labels aw) Hkeys Hnd Hall) as Hperm.
  destruct (Nat.leb_spec (length trees) 0) as [Hz | Hpos].
  - rewrite Heval. destruct trees; [| simpl in Hz; lia].
    split; [reflexivity |]. split; [constructor |]. split; [| split; assumption].
    intros t Ht. apply elem_of_nil in Ht. contradiction.
  - destruct Heval as (Hg & Hm & _). rewrite Hg.
    split; [exact Hperm |]. split; [apply designated_labels, Hkeys |].
    split; [| split; assumption].
    intros t Ht. rewrite Hm. apply decide_True. rewrite Hperm. exact Ht.
Qed.

(** *** Computations that only log *)

Lemma quiet_ret {A} (a : A) : quiet (mret a : M A).
Proof. intros w. repeat split. Qed.

Lemma quiet_bind {A C} (c : M A) (k : A -> M C) :
  quiet c -> (forall a, quiet (k a)) -> quiet (mbind k c).
Proof.
  intros Hc Hk w. change ((c ≫= k) w) with (QuotaManager.bind c k w).
  unfold QuotaManager.bind. destruct (Hc w) as (H1 & H2 & H3).
  destruct (c w) as [a w1]. destruct (Hk a w1) as (K1 & K2 & K3).
  cbn [snd] in *. repeat split; congruence.
Qed.

Lemma quiet_log format args : quiet (log format args).
Proof. intros w. repeat split. Qed.

Lemma quiet_when b (c : M unit) : quiet c -> quiet (when b c).
Proof. intros Hc. destruct b; [exact Hc | apply quiet_ret]. Qed.

Lemma quiet_for_each {A} (l : list A) body :
  (forall x, quiet (body x)) -> quiet (for_each l body).
Proof.
  intros Hb. induction l as [|x l IH]; simpl; [apply quiet_ret |].
  apply quiet_bind; [apply Hb | intros _; exact IH].
Qed.

Lemma quiet_consumer_trees qm aw awId d m gs : forall acc,
  quiet (consumer_trees qm aw awId d m gs acc).
Proof.
  induction gs as [|g gs IH]; intros acc; cbn [consumer_trees]; [apply quiet_ret |].
  destruct (getQuotaTreeResourceTypesDemands d (default [] (m !! GroupContext g)))
    as [dem e].
  apply quiet_bind; [apply quiet_when, quiet_log | intros _; apply IH].
Qed.

Lemma quiet_resolve qm ids : forall aws, quiet (resolve qm ids aws).
Proof.
  induction ids as [|i ids IH]; intros aws; cbn [resolve]; [apply quiet_ret |].
  destruct (ParseId i) as [ns n].
  destruct ((String.length ns <=? 0)%nat || (String.length n <=? 0)%nat).
  - apply quiet_bind; [apply quiet_log | intros _; apply IH].
  - destruct (appwrapperLister qm ns n) as [aw | e]; [apply IH |].
    apply quiet_bind; [apply quiet_log | intros _; apply IH].
Qed.

Lemma quiet_getAppWrappers qm ids : quiet (getAppWrappers qm ids).
Proof.
  unfold getAppWrappers. destruct (length ids <=? 0)%nat; [apply quiet_ret |].
  apply quiet_bind; [apply quiet_resolve | intros aws].
  apply quiet_bind; [apply quiet_when, quiet_log | intros _; apply quiet_ret].
Qed.

(** *** The request of a job *)

Lemma designated_no_trees (labels : gmap string string) keys :
  designated [] labels keys = [].
Proof.
  induction keys as [|k keys IH]; [reflexivity |].
  rewrite designated_cons. exact IH.
Qed.

Lemma designations_calls trees labels keys : forall groups m w,
  calls (designations trees labels keys groups m w).2
  = calls w ++ ((fun g => CallGetTreeCache (GroupContext g))
                  <$> designated trees labels keys).
Proof.
  induction keys as [|k keys IH]; intros groups m w.
  - simpl. rewrite app_nil_r. reflexivity.
  - cbn [designations]. rewrite designated_cons.
    destruct (isValidQuota (mkQuotaGroup k (default "" (labels !! k))) trees).
    + rewrite bind_eval, on_backend_eval. cbn [fst snd].
      rewrite IH. cbn [calls]. rewrite fmap_cons, <- app_assoc. reflexivity.
    + apply IH.
Qed.

Lemma getQuotaDesignation_calls aw w :
  calls (getQuotaDesignation aw w).2
  = calls w ++ CallGetTreeNames
       :: ((fun g => CallGetTreeCache (GroupContext g))
             <$> designated (GetTreeNames (backend w)) (aw_Labels aw)
                            (MapKeys (aw_Labels aw))).
Proof.
  unfold getQuotaDesignation. rewrite bind_eval, on_backend_eval. cbn [fst snd].
  destruct (GetTreeNames (backend w)) as [|t trees] eqn:Et.
  - cbn [length Nat.leb]. rewrite designated_no_trees. reflexivity.
  - cbn [length Nat.leb]. rewrite bind_eval.
    match goal with
    | |- context [designations ?ts ?lbl ?ks ?g ?m ?w1] =>
        pose proof (designations_calls ts lbl ks g m w1) as Hc;
        destruct (designations ts lbl ks g m w1) as [[gs tm] w2]
    end.
    cbn [fst snd calls] in Hc |- *.
    destruct (length gs <? S (length trees))%nat.
    + unfold ret. cbn [snd]. rewrite Hc, <- app_assoc. reflexivity.
    + rewrite bind_eval, when_log_eval. unfold ret. cbn [snd calls].
      rewrite Hc, <- app_assoc. reflexivity.
Qed.

Lemma buildRequest_eval qm aw (d : Resource) w :
  backend (buildRequest qm aw d w).2 = backend w
  /\ plan (buildRequest qm aw d w).2 = plan w
  /\ calls (buildRequest qm aw d w).2
     = calls w ++ request_calls aw (GetTreeNames (backend w))
  /\ (buildRequest qm aw d w).1
     = let awId := CreateId (aw_Namespace aw) (aw_Name aw) in
       if (String.length awId <=? 0)%nat
       then inl (Sprintf "[buildRequest] Request failed due to invalid AppWrapper due to empty namespace: %s or name:%s."
                         [ArgStr (aw_Namespace aw); ArgStr (aw_Name aw)])
       else match (getQuotaDesignation aw w).1 with
            | (_, _, Some e) => inl e
            | (groups, m, None) =>
                inr (NewConsumerInfo
                       (mkJConsumer DefaultConsumerKind
                          (mkJConsumerSpec awId (tree_spec qm aw awId d m <$> groups))))
            end.
Proof.
  unfold buildRequest, request_calls. cbv zeta.
  destruct (String.length (CreateId (aw_Namespace aw) (aw_Name aw)) <=? 0)%nat.
  { unfold ret. cbn [fst snd]. rewrite app_nil_r. auto. }
  rewrite bind_eval.
  destruct (getQuotaDesignation_eval aw w) as (Hb & Hp & _).
  pose proof (getQuotaDesignation_calls aw w) as Hc.
  destruct (getQuotaDesignation aw w) as [[[groups m] [e|]] w1];
    cbn [fst snd] in Hb, Hp, Hc |- *.
  { unfold ret. cbn [fst snd]. auto. }
  rewrite bind_eval.
  match goal with
  | |- context [consumer_trees qm aw ?awId d m groups [] w1] =>
      destruct (consumer_trees_result qm aw awId d m groups [] w1) as [Hr _];
      destruct (quiet_consumer_trees qm aw awId d m groups [] w1) as (Q1 & Q2 & Q3);
      destruct (consumer_trees qm aw awId d m groups [] w1) as [trees w2]
  end.
  cbn [fst snd app] in Hr, Q1, Q2, Q3 |- *. unfold ret. cbn [fst snd].
  subst trees. repeat split; congruence.
Qed.

(** X19.  [buildRequest] only reads the backend: it leaves the backend and
    the resource plans as they were, and asks for the tree names and for
    the resource names of each designated tree.  It fails only for a job
    without an id or with the error of [getQuotaDesignation]; otherwise it
    hands [NewConsumerInfo] a consumer with one tree for each designation,
    in their order, whether or not the demands of a tree could be
    converted. *)
Theorem buildRequest_reads_and_builds qm aw (d : Resource) w :
  backend (buildRequest qm aw d w).2 = backend w
  /\ plan (buildRequest qm aw d w).2 = plan w
  /\ calls (buildRequest qm aw d w).2
     = calls w ++ request_calls aw (GetTreeNames (backend w))
  /\ (buildRequest qm aw d w).1
     = let awId := CreateId (aw_Namespace aw) (aw_Name aw) in
       if (String.length awId <=? 0)%nat
       then inl (Sprintf "[buildRequest] Request failed due to invalid AppWrapper due to empty namespace: %s or name:%s."
                         [ArgStr (aw_Namespace aw); ArgStr (aw_Name aw)])
       else match (getQuotaDesignation aw w).1 with
            | (_, _, Some e) => inl e
            | (groups, m, None) =>
                inr (NewConsumerInfo
                       (mkJConsumer DefaultConsumerKind
                          (mkJConsumerSpec awId (tree_spec qm aw awId d m <$> groups))))
            end.
Proof. apply buildRequest_eval. Qed.

(** *** The jobs behind the ids of a response *)

Lemma resolved_cons qm i ids :
  resolved qm (i :: ids)
  = match resolved_id qm i with
    | Some aw => aw :: resolved qm ids
    | None => resolved qm ids
    end.
Proof. reflexivity. Qed.

Lemma resolve_result qm ids : forall aws w,
  (resolve qm ids aws w).1 = aws ++ resolved qm ids
  /\ length (klog (resolve qm ids aws w).2)
     = (length (klog w) + (length ids - length (resolved qm ids)))%nat
  /\ (length (resolved qm ids) <= length ids)%nat.
Proof.
  induction ids as [|i ids IH]; intros aws w.
  - simpl. rewrite app_nil_r. repeat split; lia.
  - cbn [resolve]. rewrite resolved_cons. unfold resolved_id.
    destruct (ParseId i) as [ns n].
    destruct ((String.length ns <=? 0)%nat || (String.length n <=? 0)%nat).
    + rewrite bind_eval.
      match goal with
      | |- context [resolve qm ids aws ?w1] => destruct (IH aws w1) as (H1 & H2 & H3)
      end.
      rewrite H1, H2. cbn [log snd klog length]. rewrite length_app. simpl.
      repeat split; lia.
    + destruct (appwrapperLister qm ns n) as [aw | e].
      * destruct (IH (aws ++ [aw]) w) as (H1 & H2 & H3).
        rewrite H1, H2, <- app_assoc. simpl. repeat split; lia.
      * rewrite bind_eval.
        match goal with
        | |- context [resolve qm ids aws ?w1] => destruct (IH aws w1) as (H1 & H2 & H3)
        end.
        rewrite H1, H2. cbn [log snd klog length]. rewrite length_app. simpl.
        repeat split; lia.
Qed.

Lemma getAppWrappers_result qm (preemptIds : list string) w :
  (getAppWrappers qm preemptIds w).1 = resolved qm preemptIds.
Proof.
  unfold getAppWrappers. destruct preemptIds as [|i ids]; [reflexivity |].
  cbn [length Nat.leb]. rewrite bind_eval.
  destruct (resolve_result qm (i :: ids) [] w) as (H1 & _).
  rewrite bind_eval, when_log_eval. unfold ret. cbn [fst]. exact H1.
Qed.

(** X20.  [getAppWrappers] returns, in the order of the ids, the jobs of
    the ids that parse and that the lister has; an id that does not parse
    or is not listed is dropped with one log line, and one more line is
    logged when any was dropped.  The backend and the resource plans are
    not touched. *)
Theorem getAppWrappers_resolves_in_order qm (preemptIds : list string) w :
  (getAppWrappers qm preemptIds w).1 = resolved qm preemptIds
  /\ quiet (getAppWrappers qm preemptIds)
  /\ length (klog (getAppWrappers qm preemptIds w).2)
     = (length (klog w)
        + (length preemptIds - length (resolved qm preemptIds))
        + if (length preemptIds =? length (resolved qm preemptIds))%nat
          then 0 else 1)%nat.
Proof.
  split; [apply getAppWrappers_result | split; [apply quiet_getAppWrappers |]].
  unfold getAppWrappers. destruct preemptIds as [|i ids]; [simpl; lia |].
    cbn [length Nat.leb]. rewrite bind_eval.
    destruct (resolve_result qm (i :: ids) [] w) as (H1 & H2 & H3).
    rewrite bind_eval, when_log_eval. unfold ret. cbn [fst snd klog].
    rewrite length_app, H2, H1. cbn [app length].
    destruct (Nat.eqb_spec (S (length ids)) (length (resolved qm (i :: ids))));
      simpl; lia.
Qed.

(** *** Refreshing the forest *)

Lemma for_each_lines {A} (l : list A) (body : A -> M unit) (n : A -> nat) :
  (forall x, quiet (body x)) ->
  (forall x w, length (klog (body x w).2) = (length (klog w) + n x)%nat) ->
  forall w, length (klog (for_each l body w).2)
            = (length (klog w) + sum_list_with n l)%nat.
Proof.
  intros Hq Hn. induction l as [|x l IH]; intros w; simpl; [lia |].
  rewrite bind_eval, IH, Hn. lia.
Qed.

Lemma updateForestFromCache_eval w :
  let u := UpdateForest QuotaManagerForestName (backend w) in
  (updateForestFromCache w).1 = u.1.2
  /\ backend (updateForestFromCache w).2 = u.2
  /\ plan (updateForestFromCache w).2 = plan w
  /\ calls (updateForestFromCache w).2
     = calls w ++ [CallUpdateForest QuotaManagerForestName]
  /\ length (klog (updateForestFromCache w).2)
     = (length (klog w) + sum_list_with (fun x => length x.2) u.1.1.2 + length u.1.1.1)%nat.
Proof.
  intros u. unfold updateForestFromCache. rewrite bind_eval, on_backend_eval.
  fold u. destruct u as [[[unallocated response] err] b']. cbn [fst snd].
  set (w1 := mkWorld b' (plan w) (calls w ++ [CallUpdateForest QuotaManagerForestName])
                     (klog w)).
  set (dangling := fun '((k, danglingNodeNames) : string * list string) =>
         for_each danglingNodeNames (fun danglingNodeName =>
           log "[updateForestFromCache] Failure to link node %s to tree %s after Quota Manager Backend Cache refresh."
               [ArgStr danglingNodeName; ArgStr k])).
  set (unalloc := fun unallocatedConsumer : string =>
         log "[updateForestFromCache] Failure to allocate %s after Quota Manager Backend Cache refresh."
             [ArgStr unallocatedConsumer]).
  assert (forall x, quiet (dangling x)) as Hq1.
  { intros [k names]. apply quiet_for_each. intros x. apply quiet_log. }
  assert (forall x, quiet (unalloc x)) as Hq2 by (intros x; apply quiet_log).
  assert (forall x w, length (klog (dangling x w).2)
                      = (length (klog w) + length x.2)%nat) as Hn1.
  { intros [k names] w0. unfold dangling.
    rewrite (for_each_lines names _ (fun _ => 1%nat)).
    - cbn [snd]. induction names; simpl; lia.
    - intros x. apply quiet_log.
    - intros x w2. cbn [log snd klog]. rewrite length_app. reflexivity. }
  assert (forall x w, length (klog (unalloc x w).2) = (length (klog w) + 1)%nat) as Hn2.
  { intros x w0. unfold unalloc. cbn [log snd klog]. rewrite length_app. reflexivity. }
  rewrite !bind_eval. unfold ret. cbn [fst snd].
  destruct (quiet_for_each response dangling Hq1 w1) as (A1 & A2 & A3).
  destruct (quiet_for_each unallocated unalloc Hq2 (for_each response dangling w1).2)
    as (B1 & B2 & B3).
  rewrite B1, B2, B3, A1, A2, A3.
  rewrite (for_each_lines unallocated unalloc (fun _ => 1%nat) Hq2 Hn2).
  rewrite (for_each_lines response dangling (fun x => length x.2) Hq1 Hn1).
  subst w1. cbn [backend plan calls klog]. repeat split.
Qed.

(** X24.  [updateForestFromCache] makes one call, [UpdateForest] on the
    controller's forest, and returns its error as it is; it logs one line
    for each dangling node of each tree and one for each consumer left
    unallocated, and leaves the resource plans alone. *)
Theorem updateForestFromCache_reports w :
  let u := UpdateForest QuotaManagerForestName (backend w) in
  (updateForestFromCache w).1 = u.1.2
  /\ backend (updateForestFromCache w).2 = u.2
  /\ plan (updateForestFromCache w).2 = plan w
  /\ calls (updateForestFromCache w).2
     = calls w ++ [CallUpdateForest QuotaManagerForestName]
  /\ length (klog (updateForestFromCache w).2)
     = (length (klog w) + sum_list_with (fun x => length x.2) u.1.1.2 + length u.1.1.1)%nat.
Proof. apply updateForestFromCache_eval. Qed.

(** *** Fits *)

Lemma refresh_on_change_calls w :
  calls (refresh_on_change w).2
  = calls w ++ CallIsResplanChanged
       :: if (IsResplanChanged (plan w)).1
          then [CallLoadResourcePlansIntoBackend;
                CallUpdateForest QuotaManagerForestName]
          else [].
Proof.
  unfold refresh_on_change. rewrite bind_eval, is_resplan_changed_eval. cbn [fst snd].
  destruct (IsResplanChanged (plan w)) as [[|] r]; cbn [fst snd when]; [| reflexivity].
  rewrite bind_eval. unfold load_resource_plans_into_backend.
  cbn [backend plan calls klog].
  destruct (LoadResourcePlansIntoBackend r (backend w)) as [r' b']. cbn [fst snd].
  rewrite bind_eval, when_log_eval. cbn [snd calls].
  match goal with
  | |- context [updateForestFromCache ?w1] =>
      destruct (updateForestFromCache_eval w1) as (_ & _ & _ & -> & _)
  end.
  cbn [calls]. rewrite <- !app_assoc. reflexivity.
Qed.

Lemma Fits_open_eval qm (b : B) aw (d : Resource) (pp : list AppWrapper) :
  quotaManagerBackend qm = Some b ->
  Mode_eqb (GetMode b) Maintenance && initializationDone qm = false ->
  let w := world_at_request qm b in
  let r := Fits qm aw d pp in
  match (buildRequest qm aw d w).1 with
  | inr (ci, None) =>
      made r = calls w ++ request_calls aw (GetTreeNames (backend w))
                 ++ [CallAddConsumer (GetID ci);
                     CallAllocateForest QuotaManagerForestName (GetID ci)]
      /\ match (AllocateForest QuotaManagerForestName (GetID ci)
                               (AddConsumer ci (backend w))).1 with
         | AllocOK resp =>
             result r = (IsAllocated resp, resolved qm (GetPreemptedIds resp),
                         GetMessage resp)
         | AllocFailed _ _ => (result r).1 = (false, [])
         end
  | inl e | inr (_, Some e) =>
      made r = calls w ++ request_calls aw (GetTreeNames (backend w))
      /\ result r = (false, [], e)
  end.
Proof.
  intros Hb Hgate w r. subst r. unfold Fits. rewrite Hb, made_run, result_run.
  unfold Fits_with_backend. rewrite bind_eval, on_backend_eval.
  cbn [fst snd backend plan calls klog app]. rewrite Hgate.
  rewrite bind_eval. fold (world_at_request qm b). fold w.
  rewrite bind_eval.
  destruct (buildRequest_eval qm aw d w) as (Eb & _ & Ec & _).
  destruct (buildRequest qm aw d w) as [[e | [ci [e |]]] w1];
    cbn [fst snd] in Eb, Ec |- *.
  - rewrite bind_eval. unfold ret. cbn [log fst snd calls]. auto.
  - rewrite bind_eval. unfold ret. cbn [log fst snd calls]. auto.
  - rewrite !bind_eval, !on_backend_eval. cbn [fst snd backend plan calls klog].
    rewrite Eb, Ec, <- !app_assoc. cbn [app].
    destruct (AllocateForest QuotaManagerForestName (GetID ci)
                             (AddConsumer ci (backend w))) as [[resp | [resp|] e] b2];
      cbn [fst snd].
    + rewrite !bind_eval, when_log_eval. cbn [fst snd].
      match goal with
      | |- context [getAppWrappers qm ?ids ?w2] =>
          destruct (quiet_getAppWrappers qm ids w2) as (_ & _ & Q);
          pose proof (getAppWrappers_result qm ids w2) as Hres;
          destruct (getAppWrappers qm ids w2) as [aws w3]
      end.
      cbn [fst snd calls] in Q, Hres |- *. unfold ret. cbn [fst snd].
      rewrite Q, Hres. auto.
    + destruct (0 <? String.length (GetMessage resp))%nat;
        rewrite bind_eval; unfold ret; cbn [log fst snd calls]; auto.
    + rewrite bind_eval. unfold ret. cbn [log fst snd calls]. auto.
Qed.

(** X21.  The calls [Fits] makes once the maintenance gate is open, in
    their order: the mode, whether the resource plans changed, the reload
    and [UpdateForest] only when they changed, the reads of
    [buildRequest], and, only when the request could be built,
    [AddConsumer] followed by [AllocateForest].  It never deallocates and
    never removes a consumer, also when the allocation fails. *)
Theorem Fits_journal qm (b : B) aw (d : Resource) (pp : list AppWrapper) :
  quotaManagerBackend qm = Some b ->
  Mode_eqb (GetMode b) Maintenance && initializationDone qm = false ->
  let w := world_at_request qm b in
  made (Fits qm aw d pp)
  = CallGetMode :: CallIsResplanChanged
      :: (if (IsResplanChanged (resourcePlanManager qm)).1
          then [CallLoadResourcePlansIntoBackend;
                CallUpdateForest QuotaManagerForestName]
          else [])
      ++ request_calls aw (GetTreeNames (backend w))
      ++ match (buildRequest qm aw d w).1 with
         | inr (ci, None) =>
             [CallAddConsumer (GetID ci);
              CallAllocateForest QuotaManagerForestName (GetID ci)]
         | _ => []
         end.
Proof.
  intros Hb Hgate w.
  pose proof (Fits_open_eval qm b aw d pp Hb Hgate) as He. cbv zeta in He. fold w in He.
  assert (calls w = CallGetMode :: CallIsResplanChanged
                      :: (if (IsResplanChanged (resourcePlanManager qm)).1
                          then [CallLoadResourcePlansIntoBackend;
                                CallUpdateForest QuotaManagerForestName]
                          else [])) as Hw.
  { subst w. unfold world_at_request. rewrite refresh_on_change_calls. reflexivity. }
  destruct (buildRequest qm aw d w).1 as [e | [ci [e |]]]; destruct He as [-> _];
    rewrite Hw, ?app_nil_r; reflexivity.
Qed.

(** X22.  [Fits] fails closed: it answers that the job fits, or names jobs
    to preempt, only when the request could be built and [AllocateForest]
    returned a response without error; the answer is then the response's
    own, with the jobs behind its preempted ids. *)
Theorem Fits_admits_only_on_allocation qm (b : B) aw (d : Resource)
    (pp : list AppWrapper) :
  quotaManagerBackend qm = Some b ->
  (result (Fits qm aw d pp)).1.1 = true \/ (result (Fits qm aw d pp)).1.2 <> [] ->
  let w := world_at_request qm b in
  exists ci resp,
    (buildRequest qm aw d w).1 = inr (ci, None)
    /\ (AllocateForest QuotaManagerForestName (GetID ci)
                       (AddConsumer ci (backend w))).1 = AllocOK resp
    /\ result (Fits qm aw d pp)
       = (IsAllocated resp, resolved qm (GetPreemptedIds resp), GetMessage resp).
Proof.
  intros Hb Hyes w.
  destruct (Mode_eqb (GetMode b) Maintenance && initializationDone qm) eqn:Hgate.
  { exfalso. revert Hyes. unfold Fits. rewrite Hb, result_run.
    unfold Fits_with_backend. rewrite bind_eval, on_backend_eval.
    cbn [fst snd backend]. rewrite Hgate, bind_eval. unfold ret. cbn [fst snd].
    intros [[=] | Hne]; congruence. }
  pose proof (Fits_open_eval qm b aw d pp Hb Hgate) as He. cbv zeta in He. fold w in He.
  destruct (buildRequest qm aw d w).1 as [e | [ci [e |]]].
  - exfalso. destruct He as [_ He]. rewrite He in Hyes. cbn [fst snd] in Hyes.
    destruct Hyes as [[=] | Hne]; congruence.
  - exfalso. destruct He as [_ He]. rewrite He in Hyes. cbn [fst snd] in Hyes.
    destruct Hyes as [[=] | Hne]; congruence.
  - destruct He as [_ He]. exists ci.
    destruct (AllocateForest QuotaManagerForestName (GetID ci)
                             (AddConsumer ci (backend w))).1 as [resp | o e].
    + exists resp. auto.
    + exfalso. rewrite He in Hyes. cbn [fst snd] in Hyes.
      destruct Hyes as [[=] | Hne]; congruence.
Qed.

(** *** Release *)

(** X23.  [Release] calls the backend exactly when there is a backend and
    the job has an id; without either it answers false and leaves the
    manager as it was. *)
Theorem Release_makes_no_call_iff qm aw :
  (made (Release qm aw) = []
   <-> quotaManagerBackend qm = None
       \/ CreateId (aw_Namespace aw) (aw_Name aw) = "")
  /\ (made (Release qm aw) = [] ->
      result (Release qm aw) = false /\ manager (Release qm aw) = qm).
Proof.
  unfold Release. destruct (quotaManagerBackend qm) as [b|] eqn:Hb.
  2: { cbn [made result manager]. split; [split; auto | auto]. }
  rewrite made_run, result_run. unfold run, Release_with_backend.
  destruct (CreateId (aw_Namespace aw) (aw_Name aw)) as [|c id] eqn:Hid.
  - cbn [String.length Nat.leb]. rewrite bind_eval. unfold ret.
    cbn [log fst snd calls backend plan manager].
    split; [split; auto |]. intros _. split; [reflexivity |].
    apply QuotaManager_eta, Hb.
  - cbn [String.length Nat.leb].
    repeat (rewrite ?bind_eval, ?on_backend_eval, ?when_log_eval;
            cbn [fst snd backend plan calls klog]).
    destruct (RemoveConsumer _ _) as [[success err] b2].
    repeat (rewrite ?bind_eval, ?on_backend_eval, ?when_log_eval;
            cbn [fst snd backend plan calls klog]).
    unfold ret. cbn [fst snd calls app].
    split; [split |]; try discriminate. intros [[=] | [=]].
Qed.

(** *** A backend that lists a tree twice *)

Lemma remove_dups_length (l : list string) :
  (length (remove_dups l) <= length l)%nat.
Proof.
  induction l as [|x l IH]; [reflexivity |]. cbn [remove_dups].
  destruct (decide_rel elem_of x l); simpl; lia.
Qed.

Lemma remove_dups_shorter (l : list string) :
  ~ NoDup l -> (length (remove_dups l) < length l)%nat.
Proof.
  induction l as [|x l IH]; intros Hdup.
  - exfalso. apply Hdup. constructor.
  - cbn [remove_dups]. pose proof (remove_dups_length l).
    destruct (decide_rel elem_of x l) as [Hin | Hnin]; simpl; [lia |].
    assert (~ NoDup l) as Hl by (intros Hnd; apply Hdup; constructor; assumption).
    specialize (IH Hl). lia.
Qed.

(** X30.  When the backend lists a tree name twice, [getQuotaDesignation]
    fails for every job, whatever its labels: the designations are counted
    against the list of names, and a label gives one designation only. *)
Theorem getQuotaDesignation_fails_on_repeated_tree aw w :
  keys_once ->
  ~ NoDup (GetTreeNames (backend w)) ->
  is_Some (getQuotaDesignation aw w).1.2.
Proof.
  intros Hkeys Hdup.
  destruct (getQuotaDesignation_eval aw w) as (_ & _ & Heval).
  set (trees := GetTreeNames (backend w)) in *.
  destruct (Nat.leb_spec (length trees) 0) as [Hz | Hpos].
  { exfalso. apply Hdup. destruct trees; [constructor | simpl in Hz; lia]. }
  destruct Heval as (_ & _ & Herr).
  destruct ((getQuotaDesignation aw w).1.2) as [e|]; [eauto |]. exfalso.
  pose proof (proj1 Herr eq_refl) as Hle.
  pose proof (remove_dups_shorter trees Hdup) as Hlt.
  assert (length (GroupContext <$> designated trees (aw_Labels aw)
                                              (MapKeys (aw_Labels aw)))
          <= length (remove_dups trees))%nat as Hsub.
  { apply submseteq_length, NoDup_submseteq.
    - apply designated_NoDup, MapKeys_NoDup, Hkeys.
    - intros x Hx. apply elem_of_remove_dups.
      apply designated_contexts in Hx. tauto. }
  rewrite length_fmap in Hsub. lia.
Qed.

End Properties.

Section Construction.

Context {B R CI Config : Type} `{!Collaborators B R CI} `{!GoRuntime}
        `{!Startup B R Config}.

Implicit Types (qm : @QuotaManager B R) (aw : AppWrapper)
         (acc : @Run B R (option string)).

(** *** Replaying the dispatched jobs *)

Lemma load_step_runnable (aws : gmap string AppWrapper) acc k (v : Resource) aw :
  getDispatchedAppWrapper aws k = Some aw ->
  let f := Fits (manager acc) aw v [] in
  (result (load_step aws acc (k, v)) = None <-> result acc = None /\ admitted f)
  /\ made (load_step aws acc (k, v)) = made acc ++ made f
  /\ manager (load_step aws acc (k, v)) = manager f.
Proof.
  intros Haw f. unfold load_step. rewrite Haw. fold f. unfold admitted.
  destruct (result f) as [[fit victims] msg]. cbn [fst snd].
  destruct fit, victims as [|x victims]; cbn [negb length Nat.ltb Nat.leb manager made result];
    (split; [| split; reflexivity]).
  - tauto.
  - split; [discriminate | intros [_ [_ [=]]]].
  - split; [discriminate | intros [_ [[=] _]]].
  - split; [discriminate | intros [_ [[=] _]]].
Qed.

Lemma load_step_skipped (aws : gmap string AppWrapper) acc k (v : Resource) :
  getDispatchedAppWrapper aws k = None ->
  result (load_step aws acc (k, v)) = result acc
  /\ made (load_step aws acc (k, v)) = made acc
  /\ manager (load_step aws acc (k, v)) = manager acc.
Proof. intros Haw. unfold load_step. rewrite Haw. auto. Qed.

Lemma load_fold (aws : gmap string AppWrapper) visit : forall acc,
  let r := fold_left (load_step aws) visit acc in
  let fs := replayed (manager acc) visit aws in
  (result r = None <-> result acc = None /\ Forall admitted fs)
  /\ made r = made acc ++ concat (made <$> fs)
  /\ manager r = default (manager acc) (manager <$> last fs).
Proof.
  induction visit as [|[k v] visit IH]; intros acc; cbn [fold_left replayed].
  - cbv zeta. cbn [fmap list_fmap concat last option_fmap option_map default].
    rewrite app_nil_r. split; [| split; reflexivity].
    split; [intros Hn; split; [exact Hn | constructor] | tauto].
  - destruct (IH (load_step aws acc (k, v))) as (Hr & Hm & Hq). cbv zeta in *.
    destruct (getDispatchedAppWrapper aws k) as [aw|] eqn:Haw.
    + destruct (load_step_runnable aws acc k v aw Haw) as (Sr & Sm & Sq).
      cbv zeta in *. rewrite Sq in Hr, Hm, Hq. rewrite Hr, Hm, Hq, Sr, Sm.
      rewrite Forall_cons, fmap_cons, last_cons. cbn [concat].
      rewrite <- app_assoc. split; [tauto | split; [reflexivity |]].
      destruct (last (replayed _ visit aws)); reflexivity.
    + destruct (load_step_skipped aws acc k v Haw) as (Sr & Sm & Sq).
      rewrite Sq in Hr, Hm, Hq. rewrite Hr, Hm, Hq, Sr, Sm. tauto.
Qed.

Lemma loadDispatchedAWs_eval qm (visit : list (string * Resource))
    (aws : gmap string AppWrapper) :
  (result (loadDispatchedAWs qm visit aws) = None
   <-> Forall admitted (replayed qm visit aws))
  /\ made (loadDispatchedAWs qm visit aws) = concat (made <$> replayed qm visit aws)
  /\ manager (loadDispatchedAWs qm visit aws)
     = default qm (manager <$> last (replayed qm visit aws)).
Proof.
  unfold loadDispatchedAWs. destruct visit as [|e visit].
  - cbn. repeat split; auto.
  - cbn [length Nat.leb].
    destruct (load_fold aws (e :: visit) (mkRun None qm [] [])) as (Hr & Hm & Hq).
    cbv zeta in *. cbn [result made manager app] in Hr, Hm, Hq.
    rewrite Hr, Hm, Hq. tauto.
Qed.

(** X26.  [loadDispatchedAWs] returns no error exactly when every job it
    replayed was admitted by [Fits] without preemption: an error, once
    set, is never cleared by a later job.  Entries without a runnable job
    are skipped without a call; the calls made are those of the replayed
    [Fits] runs, each on the manager the previous one left. *)
Theorem loadDispatchedAWs_error_iff qm (visit : list (string * Resource))
    (aws : gmap string AppWrapper) :
  (result (loadDispatchedAWs qm visit aws) = None
   <-> Forall admitted (replayed qm visit aws))
  /\ made (loadDispatchedAWs qm visit aws) = concat (made <$> replayed qm visit aws)
  /\ manager (loadDispatchedAWs qm visit aws)
     = default qm (manager <$> last (replayed qm visit aws)).
Proof. apply loadDispatchedAWs_eval. Qed.

(** *** Constructing the manager *)

Lemma same_settings_run {A} qm (b : B) (c : @M B R A) :
  quotaManagerBackend qm = Some b -> same_settings qm (manager (run qm b c)).
Proof.
  intros Hb. unfold run. destruct (c _) as [a w]. cbn [manager].
  repeat split; eauto.
Qed.

Lemma same_settings_Fits qm aw (d : Resource) (pp : list AppWrapper) :
  same_settings qm (manager (Fits qm aw d pp)).
Proof.
  unfold Fits. destruct (quotaManagerBackend qm) as [b|] eqn:Hb.
  - apply same_settings_run, Hb.
  - cbn [manager]. repeat split; auto.
Qed.

Lemma same_settings_trans qm1 qm2 qm3 :
  same_settings qm1 qm2 -> same_settings qm2 qm3 -> same_settings qm1 qm3.
Proof.
  unfold same_settings. intros (?&?&?&?) (?&?&?&?). repeat split; try congruence. auto.
Qed.

Lemma same_settings_replayed (aws : gmap string AppWrapper) visit : forall qm,
  same_settings qm (default qm (manager <$> last (replayed qm visit aws))).
Proof.
  induction visit as [|[k v] visit IH]; intros qm; cbn [replayed].
  - cbn. repeat split; auto.
  - destruct (getDispatchedAppWrapper aws k) as [aw|]; [| apply IH].
    rewrite last_cons.
    pose proof (IH (manager (Fits qm aw v []))) as Hrest.
    pose proof (same_settings_Fits qm aw v []) as Hfirst.
    destruct (last (replayed _ visit aws)) as [f|]; cbn in *.
    + eapply same_settings_trans; eassumption.
    + exact Hfirst.
Qed.

Lemma Fits_passes_gate_during_initialization qm aw (d : Resource)
    (pp : list AppWrapper) :
  is_Some (quotaManagerBackend qm) -> initializationDone qm = false ->
  passed_gate (Fits qm aw d pp).
Proof.
  intros [b Hb] Hinit.
  assert (Mode_eqb (GetMode b) Maintenance && initializationDone qm = false) as Hgate
    by (rewrite Hinit; apply andb_false_r).
  pose proof (Fits_open_eval qm b aw d pp Hb Hgate) as He. cbv zeta in He.
  assert (exists rest, calls (world_at_request qm b)
                       = CallGetMode :: CallIsResplanChanged :: rest) as [rest Hw].
  { unfold world_at_request. rewrite refresh_on_change_calls. cbn [calls app]. eauto. }
  unfold passed_gate.
  destruct (buildRequest qm aw d (world_at_request qm b)).1 as [e | [ci [e |]]];
    destruct He as [-> _]; rewrite Hw; cbn [app]; eauto.
Qed.

Lemma replayed_pass_gate (aws : gmap string AppWrapper) visit : forall qm,
  is_Some (quotaManagerBackend qm) -> initializationDone qm = false ->
  Forall passed_gate (replayed qm visit aws).
Proof.
  induction visit as [|[k v] visit IH]; intros qm Hb Hinit; cbn [replayed];
    [constructor |].
  destruct (getDispatchedAppWrapper aws k) as [aw|]; [| apply IH; assumption].
  constructor; [apply Fits_passes_gate_during_initialization; assumption |].
  destruct (same_settings_Fits qm aw v []) as (_ & _ & Hi & Hs).
  apply IH; [auto | congruence].
Qed.

Lemma NewQuotaManager_eval (visit : list (string * Resource))
    (aws : gmap string AppWrapper) lister (config : Config) opts :
  QuotaEnabled opts = true ->
  let qm1 := manager_at_replay lister config opts in
  let fs := replayed qm1 visit aws in
  exists r,
    NewQuotaManager visit aws lister config opts = Some r
    /\ made r = CallUpdateForest QuotaManagerForestName
                  :: concat (made <$> fs) ++ [CallGetTreeNames]
    /\ (result r = None
        <-> (UpdateForest QuotaManagerForestName
                          (NewResourcePlanManager config backend_at_start).2).1.2 = None
            /\ Forall admitted fs)
    /\ initializationDone (manager r) = true
    /\ preemptionEnabled (manager r) = Preemption opts
    /\ appwrapperLister (manager r) = lister
    /\ (exists b, quotaManagerBackend (manager r) = Some (SetMode Normal b))
    /\ is_Some (quotaManagerBackend qm1) /\ initializationDone qm1 = false.
Proof.
  intros Hon qm1 fs. subst fs qm1.
  unfold NewQuotaManager, manager_at_replay. rewrite Hon. cbn [negb].
  fold backend_at_start.
  destruct (NewResourcePlanManager config backend_at_start) as [rpm b1]. cbn [fst snd].
  set (qm0 := mkQuotaManager lister (Preemption opts) (Some b1) rpm false).
  set (r1 := run qm0 b1 updateForestFromCache).
  assert (same_settings qm0 (manager r1)) as (S1 & S2 & S3 & S4)
    by (apply same_settings_run; reflexivity).
  assert (made r1 = [CallUpdateForest QuotaManagerForestName]) as Hm1.
  { subst r1. rewrite made_run.
    match goal with
    | |- context [updateForestFromCache ?w] =>
        destruct (updateForestFromCache_eval w) as (_ & _ & _ & -> & _)
    end. reflexivity. }
  assert (result r1 = (UpdateForest QuotaManagerForestName b1).1.2) as Hr1.
  { subst r1. rewrite result_run.
    match goal with
    | |- context [updateForestFromCache ?w] =>
        destruct (updateForestFromCache_eval w) as (-> & _)
    end. reflexivity. }
  destruct (loadDispatchedAWs_eval (manager r1) visit aws) as (Hr2 & Hm2 & Hq2).
  destruct (same_settings_replayed aws visit (manager r1)) as (T1 & T2 & T3 & T4).
  rewrite <- Hq2 in T1, T2, T3, T4.
  set (r2 := loadDispatchedAWs (manager r1) visit aws) in *.
  destruct (T4 (S4 ltac:(eauto))) as [b2 Hb2].
  unfold qm0 in S1, S2, S3.
  cbn [appwrapperLister preemptionEnabled initializationDone] in S1, S2, S3.
  assert (is_Some (quotaManagerBackend (manager r1))) as Hb1 by (apply S4; eauto).
  destruct (result r2) as [e2|] eqn:E2.
  - eexists. split; [reflexivity |].
    cbn [made result manager initializationDone preemptionEnabled appwrapperLister
         quotaManagerBackend].
    rewrite Hm1, Hm2, Hb2. cbn [app fmap option_fmap option_map].
    split; [reflexivity |]. split.
    { split; [discriminate |]. intros [_ Hall]. apply Hr2 in Hall. discriminate. }
    split; [reflexivity |]. split; [congruence |]. split; [congruence |].
    split; [eauto |]. split; assumption.
  - eexists. split; [reflexivity |].
    cbn [made result manager initializationDone preemptionEnabled appwrapperLister
         quotaManagerBackend].
    rewrite Hm1, Hm2, Hb2, Hr1. cbn [app fmap option_fmap option_map].
    split; [reflexivity |]. split.
    { split; [intros Hn; split; [exact Hn | apply Hr2; reflexivity] | tauto]. }
    split; [reflexivity |]. split; [congruence |]. split; [congruence |].
    split; [eauto |]. split; assumption.
Qed.

(** X27.  While [NewQuotaManager] replays the dispatched jobs the
    maintenance gate is open: the manager is not yet marked initialized,
    so every replayed [Fits] goes on to check the resource plans whatever
    mode the new backend is in.  The recorded calls of the construction
    are [UpdateForest], those of the replayed runs in their order, and
    [GetTreeNames]. *)
Theorem NewQuotaManager_replays_through_the_gate
    (visit : list (string * Resource)) (aws : gmap string AppWrapper)
    lister (config : Config) opts :
  QuotaEnabled opts = true ->
  made <$> NewQuotaManager visit aws lister config opts
  = Some (CallUpdateForest QuotaManagerForestName
            :: concat (made <$> replayed (manager_at_replay lister config opts)
                                         visit aws)
            ++ [CallGetTreeNames])
  /\ Forall passed_gate (replayed (manager_at_replay lister config opts) visit aws).
Proof.
  intros Hon.
  destruct (NewQuotaManager_eval visit aws lister config opts Hon)
    as (r & Hr & Hm & _ & _ & _ & _ & _ & Hb & Hi).
  rewrite Hr. cbn [fmap option_fmap option_map]. rewrite Hm.
  split; [reflexivity | apply replayed_pass_gate; assumption].
Qed.

(** X28.  With quota management enabled [NewQuotaManager] returns a
    manager that is marked initialized, has the preemption setting of the
    options and the lister it was given, and whose backend is in Normal
    mode (for a backend that answers with the mode it was set to); the
    error it returns is nil exactly when [UpdateForest] reported none and
    every replayed job was admitted without preemption.  The manager is
    returned also when the error is not nil. *)
Theorem NewQuotaManager_returns_initialized_manager
    (visit : list (string * Resource)) (aws : gmap string AppWrapper)
    lister (config : Config) opts :
  mode_is_kept ->
  QuotaEnabled opts = true ->
  exists r,
    NewQuotaManager visit aws lister config opts = Some r
    /\ initializationDone (manager r) = true
    /\ preemptionEnabled (manager r) = Preemption opts
    /\ appwrapperLister (manager r) = lister
    /\ GetMode <$> quotaManagerBackend (manager r) = Some Normal
    /\ (result r = None
        <-> (UpdateForest QuotaManagerForestName
                          (NewResourcePlanManager config backend_at_start).2).1.2 = None
            /\ Forall admitted
                      (replayed (manager_at_replay lister config opts) visit aws)).
Proof.
  intros Hmode Hon.
  destruct (NewQuotaManager_eval visit aws lister config opts Hon)
    as (r & Hr & _ & He & Hi & Hp & Hl & [b Hb] & _).
  exists r. split; [exact Hr |]. split; [exact Hi |]. split; [exact Hp |].
  split; [exact Hl |]. split; [| exact He].
  rewrite Hb. cbn. rewrite Hmode. reflexivity.
Qed.

(** *** Fits and Release *)

Lemma Release_calls qm (b : B) aw :
  quotaManagerBackend qm = Some b ->
  CreateId (aw_Namespace aw) (aw_Name aw) <> "" ->
  made (Release qm aw)
  = [CallDeAllocateForest QuotaManagerForestName
                          (CreateId (aw_Namespace aw) (aw_Name aw));
     CallRemoveConsumer (CreateId (aw_Namespace aw) (aw_Name aw))].
Proof.
  intros Hb Hid. unfold Release. rewrite Hb, made_run. unfold Release_with_backend.
  destruct (CreateId (aw_Namespace aw) (aw_Name aw)) as [|c id]; [congruence |].
  cbn [String.length Nat.leb].
  repeat (rewrite ?bind_eval, ?on_backend_eval, ?when_log_eval;
          cbn [fst snd backend plan calls klog]).
  destruct (RemoveConsumer _ _) as [[success err] b2].
  repeat (rewrite ?bind_eval, ?on_backend_eval, ?when_log_eval;
          cbn [fst snd backend plan calls klog]).
  reflexivity.
Qed.

(** X29.  [Release] names the consumer [Fits] added: when the backend
    gives a consumer the id of its description, a job that [Fits] admitted
    was added and allocated under the id [util.CreateId] forms of its
    namespace and name, the last two calls of [Fits], and [Release] on the
    manager [Fits] left deallocates and then removes that same id. *)
Theorem Release_names_the_consumer_Fits_added qm (b : B) aw (d : Resource)
    (pp : list AppWrapper) :
  consumer_id_is_kept ->
  quotaManagerBackend qm = Some b ->
  (result (Fits qm aw d pp)).1.1 = true ->
  let id := CreateId (aw_Namespace aw) (aw_Name aw) in
  (exists pre, made (Fits qm aw d pp)
               = pre ++ [CallAddConsumer id;
                         CallAllocateForest QuotaManagerForestName id])
  /\ made (Release (manager (Fits qm aw d pp)) aw)
     = [CallDeAllocateForest QuotaManagerForestName id; CallRemoveConsumer id].
Proof.
  intros Hkept Hb Hfit id.
  destruct (Mode_eqb (GetMode b) Maintenance && initializationDone qm) eqn:Hgate.
  { exfalso. revert Hfit. unfold Fits. rewrite Hb, result_run.
    unfold Fits_with_backend. rewrite bind_eval, on_backend_eval.
    cbn [fst snd backend]. rewrite Hgate, bind_eval. unfold ret. cbn [fst snd].
    discriminate. }
  pose proof (Fits_open_eval qm b aw d pp Hb Hgate) as He. cbv zeta in He.
  destruct (buildRequest_eval qm aw d (world_at_request qm b)) as (_ & _ & _ & Hreq).
  cbv zeta in Hreq. fold id in Hreq.
  destruct (buildRequest qm aw d (world_at_request qm b)).1 as [e | [ci [e |]]].
  1, 2: exfalso; destruct He as [_ He]; rewrite He in Hfit; discriminate.
  destruct He as [Hmade _].
  assert (id <> "" /\ GetID ci = id) as [Hid Hci].
  { destruct id as [|c s] eqn:Eid; [discriminate |]. split; [discriminate |].
    cbn [String.length Nat.leb] in Hreq.
    destruct (getQuotaDesignation aw (world_at_request qm b)).1 as [[groups m] [e|]];
      [discriminate |].
    injection Hreq as Hreq. symmetry in Hreq. apply Hkept in Hreq. exact Hreq. }
  rewrite Hci in Hmade. split.
  - rewrite Hmade, app_assoc. eauto.
  - destruct (same_settings_Fits qm aw d pp) as (_ & _ & _ & Hs).
    destruct (Hs ltac:(eauto)) as [b' Hb'].
    apply (Release_calls _ b' aw Hb' Hid).
Qed.

End Construction.

#[local] Existing Instance forest_collaborators.
#[local] Existing Instance plain_runtime.

(** *** The properties on the small forest *)

Lemma convertInt64Demand_keeps_every_int64_witness :
  convertInt64Demand 8 = (8, None).
Proof.
  apply (convertInt64Demand_keeps_every_int64 8). unfold is_int64. lia.
Defined.

(** 2.5 is truncated to 2. *)
Lemma convertFloat64Demand_of_finite_witness :
  convertFloat64Demand (S754_finite false 5629499534213120 (-51)) = (2, None).
Proof.
  exact (convertFloat64Demand_of_finite (S754_finite false 5629499534213120 (-51)) 2
           eq_refl eq_refl).
Defined.

Lemma convertFloat64Demand_of_non_finite_witness :
  convertFloat64Demand S754_nan = (MinInt, None).
Proof.
  exact (convertFloat64Demand_of_non_finite S754_nan eq_refl).
Defined.

Lemma trees_AB_NoDup m : NoDup (GetTreeNames (forest_AB m)).
Proof. apply (bool_decide_unpack _). vm_compute. reflexivity. Qed.

Lemma getQuotaDesignation_succeeds_iff_witness :
  let w := mkWorld (forest_AB Normal) false [] [] in
  (getQuotaDesignation job_A w).1.2 = None
  <-> missing_labels (aw_Labels job_A) (GetTreeNames (forest_AB Normal)) = [].
Proof.
  exact (getQuotaDesignation_succeeds_iff job_A
           (mkWorld (forest_AB Normal) false [] [])
           plain_runtime_keys (trees_AB_NoDup Normal)).
Defined.

Lemma getQuotaDesignation_designates_every_tree_witness :
  let w := mkWorld (forest_AB Normal) false [] [] in
  GroupContext <$> (getQuotaDesignation job_AB w).1.1.1 ≡ₚ ["A"; "B"]
  /\ Forall (fun g => aw_Labels job_AB !! GroupContext g = Some (GroupId g))
            (getQuotaDesignation job_AB w).1.1.1
  /\ (forall t, t ∈ ["A"; "B"] ->
                (getQuotaDesignation job_AB w).1.1.2 !! t
                = Some (GetResourceNames t (forest_AB Normal)))
  /\ backend (getQuotaDesignation job_AB w).2 = forest_AB Normal
  /\ plan (getQuotaDesignation job_AB w).2 = false.
Proof.
  assert (missing_labels (aw_Labels job_AB) (GetTreeNames (forest_AB Normal)) = [])
    as Hall by (vm_compute; reflexivity).
  exact (getQuotaDesignation_designates_every_tree job_AB
           (mkWorld (forest_AB Normal) false [] [])
           plain_runtime_keys (trees_AB_NoDup Normal) Hall).
Defined.

Lemma Fits_journal_witness :
  made (Fits (manager_AB Maintenance false) job_AB small_demand [])
  = [CallGetMode; CallIsResplanChanged; CallGetTreeNames;
     CallGetTreeCache "A"; CallGetTreeCache "B";
     CallAddConsumer "ns/job";
     CallAllocateForest QuotaManagerForestName "ns/job"].
Proof.
  exact (Fits_journal (manager_AB Maintenance false) (forest_AB Maintenance)
           job_AB small_demand [] eq_refl eq_refl).
Defined.

Lemma Fits_admits_only_on_allocation_witness :
  let w := world_at_request (manager_AB Normal true) (forest_AB Normal) in
  exists ci resp,
    (buildRequest (manager_AB Normal true) job_AB small_demand w).1 = inr (ci, None)
    /\ (AllocateForest QuotaManagerForestName (GetID ci)
                       (AddConsumer ci (backend w))).1 = AllocOK resp
    /\ result (Fits (manager_AB Normal true) job_AB small_demand [])
       = (IsAllocated resp, resolved (manager_AB Normal true) (GetPreemptedIds resp),
          GetMessage resp).
Proof.
  apply (Fits_admits_only_on_allocation (manager_AB Normal true) (forest_AB Normal)
           job_AB small_demand []).
  - reflexivity.
  - left. vm_compute. reflexivity.
Defined.

(** *** The names of a tree *)

Lemma addChildrenNodes_app : forall (n : TreeNode) (ids : list string),
  addChildrenNodes n ids = ids ++ addChildrenNodes n [].
Proof.
  fix IH 1. intros [a q name h children p] ids. cbn [addChildrenNodes].
  assert (forall acc,
            fold_left (fun ids c => addChildrenNodes c ids) children acc
            = acc ++ fold_left (fun ids c => addChildrenNodes c ids) children [])
    as Hfold.
  { induction children as [|c cs IHcs]; intros acc; cbn [fold_left].
    - rewrite app_nil_r. reflexivity.
    - rewrite IHcs, (IHcs (addChildrenNodes c [])), (IH c acc), <- app_assoc.
      reflexivity. }
  rewrite Hfold, <- app_assoc. reflexivity.
Qed.

Lemma addChildrenNodes_fold (cs : list TreeNode) : forall acc,
  fold_left (fun ids c => addChildrenNodes c ids) cs acc
  = acc ++ concat ((fun c => addChildrenNodes c []) <$> cs).
Proof.
  induction cs as [|c cs IH]; intros acc; cbn [fold_left].
  - simpl. rewrite app_nil_r. reflexivity.
  - rewrite IH, addChildrenNodes_app, fmap_cons, <- app_assoc. reflexivity.
Qed.

(** X25.  [addChildrenNodes] lists a tree in post-order behind the names
    it is given: the names of the subtree of each child, in the order of
    the children, and then the name of the node itself, which comes
    last. *)
Theorem addChildrenNodes_is_post_order (n : TreeNode) (ids : list string) :
  addChildrenNodes n ids
  = ids ++ concat ((fun c => addChildrenNodes c []) <$> Children n) ++ [Name n]
  /\ last (addChildrenNodes n ids) = Some (Name n).
Proof.
  assert (addChildrenNodes n ids
          = ids ++ concat ((fun c => addChildrenNodes c []) <$> Children n) ++ [Name n])
    as Heq.
  { destruct n as [a q name h children p]. cbn [addChildrenNodes Children Name].
    rewrite addChildrenNodes_fold, <- app_assoc. reflexivity. }
  split; [exact Heq |].
  rewrite Heq, !app_assoc. apply last_snoc.
Qed.

#[local] Existing Instance forest_startup.

Lemma NewQuotaManager_replays_through_the_gate_witness :
  made <$> NewQuotaManager dispatched_demands dispatched no_lister tt options_on
  = Some (CallUpdateForest QuotaManagerForestName
            :: concat (made <$> replayed (manager_at_replay no_lister tt options_on)
                                         dispatched_demands dispatched)
            ++ [CallGetTreeNames])
  /\ Forall passed_gate
            (replayed (manager_at_replay no_lister tt options_on)
                      dispatched_demands dispatched).
Proof.
  apply (NewQuotaManager_replays_through_the_gate dispatched_demands dispatched
           no_lister tt options_on).
  reflexivity.
Defined.

Lemma forest_mode_is_kept : mode_is_kept.
Proof. intros m f. reflexivity. Qed.

Lemma NewQuotaManager_returns_initialized_manager_witness :
  exists r,
    NewQuotaManager dispatched_demands dispatched no_lister tt options_on = Some r
    /\ initializationDone (manager r) = true
    /\ preemptionEnabled (manager r) = Preemption options_on
    /\ appwrapperLister (manager r) = no_lister
    /\ GetMode <$> quotaManagerBackend (manager r) = Some Normal
    /\ (result r = None
        <-> (UpdateForest QuotaManagerForestName
                          (NewResourcePlanManager tt backend_at_start).2).1.2 = None
            /\ Forall admitted
                      (replayed (manager_at_replay no_lister tt options_on)
                                dispatched_demands dispatched)).
Proof.
  apply (NewQuotaManager_returns_initialized_manager dispatched_demands dispatched
           no_lister tt options_on).
  - exact forest_mode_is_kept.
  - reflexivity.
Defined.

Lemma forest_consumer_id_is_kept : consumer_id_is_kept.
Proof. intros c ci [= <-]. reflexivity. Qed.

Lemma Release_names_the_consumer_Fits_added_witness :
  let qm := manager_AB Normal true in
  (exists pre, made (Fits qm job_AB small_demand [])
               = pre ++ [CallAddConsumer "ns/job";
                         CallAllocateForest QuotaManagerForestName "ns/job"])
  /\ made (Release (manager (Fits qm job_AB small_demand [])) job_AB)
     = [CallDeAllocateForest QuotaManagerForestName "ns/job";
        CallRemoveConsumer "ns/job"].
Proof.
  assert ((result (Fits (manager_AB Normal true) job_AB small_demand [])).1.1 = true)
    as Hfit by (vm_compute; reflexivity).
  exact (Release_names_the_consumer_Fits_added (manager_AB Normal true)
           (forest_AB Normal) job_AB small_demand []
           forest_consumer_id_is_kept eq_refl Hfit).
Defined.

(** The construction on the small forest: the job that can run is
    replayed although the backend is in Maintenance mode, the demand
    without a job is skipped with a warning, and the manager comes out
    initialized with its backend in Normal mode. *)
Example construction_on_the_small_forest :
  let r := NewQuotaManager dispatched_demands dispatched no_lister tt options_on in
  result <$> r = Some None
  /\ made <$> r
     = Some [CallUpdateForest QuotaManagerForestName;
             CallGetMode; CallIsResplanChanged; CallGetTreeNames;
             CallGetTreeCache "A"; CallGetTreeCache "B";
             CallAddConsumer "ns/job";
             CallAllocateForest QuotaManagerForestName "ns/job";
             CallGetTreeNames]
  /\ logged <$> r
     = Some ["[loadDispatchedAWs] Unable to obtain AppWrapper from key: %s.  Loading of AppWrapper will be skipped."]
  /\ (r ≫= fun r => forest_mode <$> quotaManagerBackend (manager r)) = Some Normal.
Proof. vm_compute. repeat split; reflexivity. Qed.

Lemma getQuotaDesignation_fails_on_repeated_tree_witness :
  is_Some (getQuotaDesignation job_A
             (mkWorld (mkForest Normal [("A", ["cpu"]); ("A", ["cpu"])] [] [])
                      false [] [])).1.2.
Proof.
  apply (getQuotaDesignation_fails_on_repeated_tree job_A
           (mkWorld (mkForest Normal [("A", ["cpu"]); ("A", ["cpu"])] [] [])
                    false [] []) plain_runtime_keys).
  apply (bool_decide_unpack _). vm_compute. reflexivity.
Defined.

End AdmissionFacts.
